(** * A verification model of [resnet/models/nnlib.py]

    The library builds TensorFlow graphs.  Two layers of meaning are modelled:

    - graph construction ([weight_variable], [cnn], [mlp]) as a state and
      error monad over the variable store, the variable-scope stack and the
      log; Python exceptions are the errors of the monad;
    - the values the built graph computes in one evaluation step
      ([batch_norm], [batch_norm_mean_only], [layer_norm], [div_norm_2d],
      [div_norm_1d]) over the real numbers, with the persistent variables of
      the normalisers threaded explicitly as state. *)

From Stdlib Require Import String List Bool ZArith Reals Lra Lia.
From Stdlib Require Import DecimalString.
Import ListNotations.
Open Scope string_scope.
Open Scope list_scope.

(* ------------------------------------------------------------------ *)
(** ** Python and TensorFlow values used during graph construction *)

Inductive py_error : Type :=
| ValueError (msg : string)
| TypeError (msg : string)
| IndexError (msg : string)
| KeyError (key : string).

(** TensorFlow dtypes the code distinguishes. *)
Inductive dtype : Type := float32 | float64 | float16.

Definition dtype_eqb (a b : dtype) : bool :=
  match a, b with
  | float32, float32 | float64, float64 | float16, float16 => true
  | _, _ => false
  end.

(** The initializer objects [weight_variable] may build. *)
Inductive initializer : Type :=
| ZerosInit
| TruncatedNormalInit (mean stddev : R) (seed : Z)
| UniformUnitScalingInit (factor : R) (seed : Z)
| ConstantInit (value : R)
| XavierInit (uniform : bool) (seed : Z).

Inductive log_level : Type := Info | Warning.

Inductive log_msg : Type :=
| MsgNotFloat32 (d : dtype)
| MsgWeightShape (shape : list nat)
| MsgWeightDecay (wd : R)
| MsgNoWeightDecay
| MsgApplyDropout.

(** A variable of the store: full scoped name, shape, initializer,
    regularizer (the penalty function [tf.get_variable] registers), device. *)
Record variable : Type := mkVariable {
  var_name : list string;
  var_shape : list nat;
  var_init : initializer;
  var_reg : option (list R -> R);
  var_dtype : dtype;
  var_trainable : bool;
  var_device : string
}.

Definition var_local_name (v : variable) : string := last (var_name v) EmptyString.

Record store : Type := mkStore {
  st_vars : list variable;
  st_scope : list string;
  st_log : list (log_level * log_msg)
}.

(* ------------------------------------------------------------------ *)
(** ** The construction monad: state over [store], errors are exceptions *)

Inductive outcome (A : Type) : Type :=
| Ok (a : A) (st : store)
| Raise (e : py_error).
Arguments Ok {A} a st.
Arguments Raise {A} e.

Definition M (A : Type) : Type := store -> outcome A.

Definition ret {A} (a : A) : M A := fun st => Ok a st.
Definition bind {A B} (m : M A) (k : A -> M B) : M B :=
  fun st => match m st with
            | Ok a st' => k a st'
            | Raise e => Raise e
            end.
Definition raise {A} (e : py_error) : M A := fun _ => Raise e.
Definition get : M store := fun st => Ok st st.
Definition put (st : store) : M unit := fun _ => Ok tt st.

Notation "x <- m ;; k" := (bind m (fun x => k))
  (at level 61, m at next level, right associativity).
Notation "m ;;; k" := (bind m (fun _ => k))
  (at level 61, right associativity).

Definition log (lvl : log_level) (msg : log_msg) : M unit :=
  fun st => Ok tt (mkStore (st_vars st) (st_scope st) ((lvl, msg) :: st_log st)).

Definition cur_scope : M (list string) := fun st => Ok (st_scope st) st.

(** [with tf.variable_scope(s): body] *)
Definition variable_scope {A} (s : string) (body : M A) : M A :=
  fun st =>
    match body (mkStore (st_vars st) (st_scope st ++ [s]) (st_log st)) with
    | Ok a st' => Ok a (mkStore (st_vars st') (st_scope st) (st_log st'))
    | Raise e => Raise e
    end.

(** Python indexing [l[i]] of a list, and of a value that may be [None]. *)
Definition py_index {A} (l : list A) (i : nat) : M A :=
  match nth_error l i with
  | Some a => ret a
  | None => raise (IndexError "list index out of range")
  end.

Definition py_index_opt {A} (o : option (list A)) (i : nat) : M A :=
  match o with
  | Some l => py_index l i
  | None => raise (TypeError "'NoneType' object is not subscriptable")
  end.

(** A Python dict with string keys and float values. *)
Definition dict : Type := list (string * R).

(** [k in d], where [d] may be [None]. *)
Definition py_contains (k : string) (d : option dict) : M bool :=
  match d with
  | Some d => ret (existsb (fun p => String.eqb (fst p) k) d)
  | None => raise (TypeError "argument of type 'NoneType' is not iterable")
  end.

(** [d[k]]. *)
Definition py_getitem (k : string) (d : option dict) : M R :=
  match d with
  | Some d =>
      match find (fun p => String.eqb (fst p) k) d with
      | Some p => ret (snd p)
      | None => raise (KeyError k)
      end
  | None => raise (TypeError "'NoneType' object is not subscriptable")
  end.

(** Python truthiness of an optional string ([None] and [""] are false). *)
Definition py_truthy_str (o : option string) : bool :=
  match o with
  | Some s => negb (String.eqb s EmptyString)
  | None => false
  end.

(** [tf.nn.l2_loss]: half the sum of squares. *)
Definition sum_sq (p : list R) : R := fold_right (fun a acc => (a * a + acc)%R) 0%R p.
Definition l2_loss (p : list R) : R := (sum_sq p / 2)%R.

Fixpoint name_eqb (a b : list string) : bool :=
  match a, b with
  | [], [] => true
  | x :: a', y :: b' => String.eqb x y && name_eqb a' b'
  | _, _ => false
  end.

(** [tf.get_variable] under [tf.device("/cpu:0")]: creates the variable under
    the current scope; an existing full name is refused. *)
Definition get_variable (name : string) (shape : list nat) (init : initializer)
    (reg : option (list R -> R)) (dt : dtype) (trainable : bool) : M variable :=
  fun st =>
    let full := st_scope st ++ [name] in
    if existsb (fun v => name_eqb (var_name v) full) (st_vars st)
    then Raise (ValueError "Variable already exists, disallowed.")
    else
      let v := mkVariable full shape init reg dt trainable "/cpu:0" in
      Ok v (mkStore (v :: st_vars st) (st_scope st) (st_log st)).

(* ------------------------------------------------------------------ *)
(** ** [weight_variable] *)

Definition choose_initializer (init_method : option string) (dt : dtype)
    (init_param : option dict) : M initializer :=
  match init_method with
  | None => ret ZerosInit
  | Some m =>
      if String.eqb m "truncated_normal" then
        has_mean <- py_contains "mean" init_param ;;
        mean <- (if negb has_mean then ret 0%R else py_getitem "mean" init_param) ;;
        has_std <- py_contains "stddev" init_param ;;
        stddev <- (if negb has_std then ret (1/10)%R else py_getitem "stddev" init_param) ;;
        ret (TruncatedNormalInit mean stddev 1)
      else if String.eqb m "uniform_scaling" then
        has_factor <- py_contains "factor" init_param ;;
        factor <- (if negb has_factor then ret 1%R else py_getitem "factor" init_param) ;;
        ret (UniformUnitScalingInit factor 1)
      else if String.eqb m "constant" then
        has_val <- py_contains "val" init_param ;;
        value <- (if negb has_val then ret 0%R else py_getitem "val" init_param) ;;
        ret (ConstantInit value)
      else if String.eqb m "xavier" then
        ret (XavierInit false 1)
      else raise (ValueError "Non supported initialization method!")
  end.

(** The weight-decay block: the regularizer [lambda x: l2_loss(x) * wd]. *)
Definition choose_regularizer (wd : option R) : M (option (list R -> R)) :=
  match wd with
  | Some w =>
      if Rgt_dec w 0 then
        log Info (MsgWeightDecay w) ;;; ret (Some (fun x => (l2_loss x * w)%R))
      else log Warning MsgNoWeightDecay ;;; ret None
  | None => log Warning MsgNoWeightDecay ;;; ret None
  end.

Definition weight_variable (shape : list nat) (init_method : option string)
    (dt : dtype) (init_param : option dict) (wd : option R) (name : string)
    (trainable : bool) : M variable :=
  (if dtype_eqb dt float32 then ret tt else log Warning (MsgNotFloat32 dt)) ;;;
  init <- choose_initializer init_method dt init_param ;;
  log Info (MsgWeightShape shape) ;;;
  reg <- choose_regularizer wd ;;
  get_variable name shape init reg dt trainable.

(* ------------------------------------------------------------------ *)
(** ** Graph expressions built by [cnn] and [mlp]

    Every op carries the variable scope it was created under (its name
    prefix in the graph); variables are referred to by their full name.
    Callables passed by the caller ([act_fn], [pool_fn]) are named. *)

Definition fn_ref : Type := string.

Inductive expr : Type :=
| Input
| Conv2d (sc : list string) (h : expr) (w : list string) (strides : list nat)
| AddBias (sc : list string) (h : expr) (b : list string)
| Apply (sc : list string) (f : fn_ref) (h : expr)
| Pool (sc : list string) (f : fn_ref) (h : expr) (size strides : list nat)
| MatMul (sc : list string) (h : expr) (w : list string)
| Dropout (sc : list string) (h : expr) (keep_prob : R).

Definition string_of_nat (n : nat) : string :=
  NilZero.string_of_uint (Nat.to_uint n).

Definition layer_scope (ii : nat) : string := String.append "layer_" (string_of_nat ii).

(** [init_method is not None and init_method[ii]] *)
Definition use_init_method (init_method : option (list (option string))) (ii : nat)
  : M bool :=
  match init_method with
  | None => ret false
  | Some l => m <- py_index l ii ;; ret (py_truthy_str m)
  end.

Section Cnn.
Variables (filter_size : list (list nat)) (strides : list (list nat))
          (pool_fn : list (option fn_ref)) (pool_size pool_strides : list (list nat))
          (act_fn : list (option fn_ref)) (dt : dtype) (add_bias : bool)
          (wd : option R) (init_std : option (list R))
          (init_method : option (list (option string))) (trainable : bool).

(** The body of [for ii in range(num_layer)] in [cnn]. *)
Definition cnn_layer (ii : nat) (h : expr) : M expr :=
  variable_scope (layer_scope ii) (
    use <- use_init_method init_method ii ;;
    w <- (if use then
            fs <- py_index filter_size ii ;;
            m <- py_index_opt init_method ii ;;
            std <- py_index_opt init_std ii ;;
            weight_variable fs m dt (Some [("mean", 0%R); ("stddev", std)]) wd "w" trainable
          else
            fs <- py_index filter_size ii ;;
            std <- py_index_opt init_std ii ;;
            weight_variable fs (Some "truncated_normal") dt
              (Some [("mean", 0%R); ("stddev", std)]) wd "w" trainable) ;;
    b <- (if add_bias then
            fs <- py_index filter_size ii ;;
            depth <- py_index fs 3 ;;
            bv <- weight_variable [depth] (Some "constant") dt (Some [("val", 0%R)])
                    None "b" trainable ;;
            ret (Some bv)
          else ret None) ;;
    sc <- cur_scope ;;
    st <- py_index strides ii ;;
    let h := Conv2d sc h (var_name w) st in
    let h := match b with Some bv => AddBias sc h (var_name bv) | None => h end in
    a <- py_index act_fn ii ;;
    let h := match a with Some f => Apply sc f h | None => h end in
    p <- py_index pool_fn ii ;;
    match p with
    | Some f =>
        ps <- py_index pool_size ii ;;
        pst <- py_index pool_strides ii ;;
        ret (Pool sc f h ps pst)
    | None => ret h
    end).

(** Layers [ii], [ii+1], ..., [ii+k-1], in order. *)
Fixpoint cnn_layers (ii k : nat) (h : expr) : M expr :=
  match k with
  | O => ret h
  | S k' => h' <- cnn_layer ii h ;; cnn_layers (S ii) k' h'
  end.

Definition cnn (x : expr) (scope : string) : M expr :=
  variable_scope scope (cnn_layers 0 (length filter_size) x).
End Cnn.

Section Mlp.
Variables (dims : list nat) (is_training : bool)
          (act_fn : option (list (option fn_ref))) (dt : dtype) (add_bias : bool)
          (wd : option R) (init_std : option (list R))
          (init_method : option (list (option string)))
          (dropout : option (list bool)) (trainable : bool).

(** [act_fn and act_fn[ii] is not None] *)
Definition mlp_act (ii : nat) : M (option fn_ref) :=
  match act_fn with
  | None | Some [] => ret None
  | Some l => py_index l ii
  end.

(** [dropout is not None and dropout[ii]] *)
Definition mlp_dropout_flag (ii : nat) : M bool :=
  match dropout with
  | None => ret false
  | Some l => py_index l ii
  end.

(** The body of [for ii in range(num_layer)] in [mlp]. *)
Definition mlp_layer (ii : nat) (h : expr) : M expr :=
  variable_scope (layer_scope ii) (
    dim_in <- py_index dims ii ;;
    dim_out <- py_index dims (S ii) ;;
    use <- use_init_method init_method ii ;;
    w <- (if use then
            m <- py_index_opt init_method ii ;;
            std <- py_index_opt init_std ii ;;
            weight_variable [dim_in; dim_out] m dt
              (Some [("mean", 0%R); ("stddev", std)]) wd "w" trainable
          else
            std <- py_index_opt init_std ii ;;
            weight_variable [dim_in; dim_out] (Some "truncated_normal") dt
              (Some [("mean", 0%R); ("stddev", std)]) wd "w" trainable) ;;
    b <- (if add_bias then
            bv <- weight_variable [dim_out] (Some "constant") dt (Some [("val", 0%R)])
                    None "b" trainable ;;
            ret (Some bv)
          else ret None) ;;
    sc <- cur_scope ;;
    let h := MatMul sc h (var_name w) in
    let h := match b with Some bv => AddBias sc h (var_name bv) | None => h end in
    a <- mlp_act ii ;;
    let h := match a with Some f => Apply sc f h | None => h end in
    flag <- mlp_dropout_flag ii ;;
    if flag then
      log Info MsgApplyDropout ;;;
      let keep_prob := (if is_training then 1/2 else 1)%R in
      ret (Dropout sc h keep_prob)
    else ret h).

Fixpoint mlp_layers (ii k : nat) (h : expr) : M expr :=
  match k with
  | O => ret h
  | S k' => h' <- mlp_layer ii h ;; mlp_layers (S ii) k' h'
  end.

(** [num_layer = len(dims) - 1] *)
Definition mlp (x : expr) (scope : string) : M expr :=
  variable_scope scope (mlp_layers 0 (length dims - 1) x).
End Mlp.

(** [tf.nn.dropout(h, keep_prob)] on one element [v], given the element's
    uniform sample [u] in [[0, 1)]: [v / keep_prob * floor(keep_prob + u)]. *)
Definition dropout_apply (keep_prob u v : R) : R :=
  (v / keep_prob * IZR (Int_part (keep_prob + u)))%R.

(** The dropout ops of an expression, innermost first, with their scope and
    keep probability. *)
Fixpoint dropout_sites (h : expr) : list (list string * R) :=
  match h with
  | Input => []
  | Conv2d _ h _ _ | AddBias _ h _ | Apply _ _ h | Pool _ _ h _ _ | MatMul _ h _ =>
      dropout_sites h
  | Dropout sc h kp => dropout_sites h ++ [(sc, kp)]
  end.

(** The variables an expression reads, innermost op first. *)
Fixpoint var_refs (h : expr) : list (list string) :=
  match h with
  | Input => []
  | Conv2d _ h w _ | MatMul _ h w => var_refs h ++ [w]
  | AddBias _ h b => var_refs h ++ [b]
  | Apply _ _ h | Pool _ _ h _ _ | Dropout _ h _ => var_refs h
  end.

(* ------------------------------------------------------------------ *)
(** ** Values computed by the normalisation graphs

    Real arithmetic stands for the float arithmetic of the graph.  A tensor
    whose statistics are taken over all axes but the last
    ([batch_norm], [batch_norm_mean_only]) is the list of its rows along the
    last axis, i.e. [x] of shape [B, H, W, C] flattened to [B*H*W] rows of
    length [C]. *)

Local Open Scope R_scope.

Definition vec : Type := list R.

Definition sumR (l : list R) : R := fold_right Rplus 0 l.

Definition mean_list (l : list R) : R := sumR l / INR (length l).

(** Channel [c] of every row. *)
Definition col (rows : list vec) (c : nat) : list R := map (fun r => nth c r 0) rows.

(** [tf.reduce_mean(x, axes)] over all axes but the last. *)
Definition reduce_mean_rows (rows : list vec) (n_out : nat) : vec :=
  map (fun c => mean_list (col rows c)) (seq 0 n_out).

(** [tf.nn.moments(x, axes)]: mean and (biased) variance per channel. *)
Definition moments_rows (rows : list vec) (n_out : nat) : vec * vec :=
  let mean := reduce_mean_rows rows n_out in
  (mean, map (fun c => mean_list (map (fun v => (v - nth c mean 0) ^ 2) (col rows c)))
             (seq 0 n_out)).

(** Elementwise [x op v] with [v] broadcast along the rows. *)
Definition bcast_rows (f : R -> R -> R) (rows : list vec) (v : vec) : list vec :=
  map (fun r => map (fun c => f (nth c r 0) (nth c v 0)) (seq 0 (length r))) rows.

(** [tf.nn.batch_normalization(x, mean, variance, offset, scale, eps)]:
    [inv = rsqrt(variance + eps)]; [inv *= scale] when given;
    [x * inv + (offset - mean * inv)], or [x * inv + (- mean * inv)]. *)
Definition batch_normalization (rows : list vec) (mean var : vec)
    (offset scale : option vec) (eps : R) : list vec :=
  map (fun r => map (fun c =>
    let inv0 := / sqrt (nth c var 0 + eps) in
    let inv := match scale with Some g => inv0 * nth c g 0 | None => inv0 end in
    nth c r 0 * inv +
      match offset with
      | Some b => nth c b 0 - nth c mean 0 * inv
      | None => - (nth c mean 0 * inv)
      end) (seq 0 (length r))) rows.

(** [tf.train.ExponentialMovingAverage(decay=0.9)]: the update of one shadow
    variable by [ema.apply], [shadow -= (shadow - value) * (1 - decay)]; no
    [num_updates] is passed, so the decay is the same at every step. *)
Definition ema_decay : R := 9 / 10.

Definition ema_update (shadow value : vec) : vec :=
  map (fun c => nth c shadow 0 - (nth c shadow 0 - nth c value 0) * (1 - ema_decay))
      (seq 0 (length shadow)).

(** Persistent variables of one [batch_norm] site: [ema_mean] and [ema_var]
    declared by [tf.get_variable], and the two shadow variables the
    [ExponentialMovingAverage] object creates for [batch_mean], [batch_var]. *)
Record bn_state : Type := mkBnState {
  ema_mean : vec;
  ema_var : vec;
  shadow_mean : vec;
  shadow_var : vec
}.

(** One evaluation of the graph [batch_norm] builds; the result is
    [(normed, mean)] and the new values of the persistent variables.

    In training mode [tf.assign(emean, ema.average(batch_mean))] reads the
    shadow variable with no control dependency on [ema_apply_op_local], so
    the value copied into [ema_mean] is the shadow after the update or the
    one before it: [mean_reads_new] and [var_reads_new] choose, for a given
    run of the graph, which of the two the assignment saw. *)
Definition batch_norm (mean_reads_new var_reads_new : bool) (x : list vec) (n_out : nat)
    (is_training : bool) (gamma beta : option vec) (eps : R) (s : bn_state)
  : (list vec * vec) * bn_state :=
  if is_training then
    let (batch_mean, batch_var) := moments_rows x n_out in
    let sm := ema_update (shadow_mean s) batch_mean in
    let sv := ema_update (shadow_var s) batch_var in
    let emean := if mean_reads_new then sm else shadow_mean s in
    let evar := if var_reads_new then sv else shadow_var s in
    let normed := batch_normalization x batch_mean batch_var beta gamma eps in
    ((normed, batch_mean), mkBnState emean evar sm sv)
  else
    ((batch_normalization x (ema_mean s) (ema_var s) beta gamma eps, ema_mean s), s).

(** [n] successive training steps that run the same [batch_norm] graph on the
    same batch, the persistent state of one step being the input of the next. *)
Fixpoint batch_norm_train_steps (mean_reads_new var_reads_new : bool) (x : list vec)
    (n_out : nat) (gamma beta : option vec) (eps : R) (n : nat) (s : bn_state) : bn_state :=
  match n with
  | O => s
  | S n' => batch_norm_train_steps mean_reads_new var_reads_new x n_out gamma beta eps n'
              (snd (batch_norm mean_reads_new var_reads_new x n_out true gamma beta eps s))
  end.

(** Persistent variables of one [batch_norm_mean_only] site. *)
Record bnms_state : Type := mkBnmsState {
  ms_ema_mean : vec;
  ms_shadow_mean : vec
}.

(** [normed *= gamma] and [normed += beta], each only when given. *)
Definition apply_gamma_beta_rows (normed : list vec) (gamma beta : option vec) : list vec :=
  let normed := match gamma with Some g => bcast_rows Rmult normed g | None => normed end in
  match beta with Some b => bcast_rows Rplus normed b | None => normed end.

Definition batch_norm_mean_only (mean_reads_new : bool) (x : list vec) (n_out : nat)
    (is_training : bool) (gamma beta : option vec) (s : bnms_state)
  : (list vec * vec) * bnms_state :=
  if is_training then
    let batch_mean := reduce_mean_rows x n_out in
    let sm := ema_update (ms_shadow_mean s) batch_mean in
    let emean := if mean_reads_new then sm else ms_shadow_mean s in
    let normed := bcast_rows Rminus x batch_mean in
    ((apply_gamma_beta_rows normed gamma beta, batch_mean), mkBnmsState emean sm)
  else
    let normed := bcast_rows Rminus x (ms_ema_mean s) in
    ((apply_gamma_beta_rows normed gamma beta, ms_ema_mean s), s).

(** [layer_norm]: each example is the list of its entries over [axes]
    (row-major, so entry [p] lies in channel [p mod C]); [gamma] and [beta]
    of shape [C] broadcast along the last axis. *)
Definition bcast_last (g : vec) (p : nat) : R := nth (p mod length g) g 0.

Definition layer_norm_example (gamma beta : option vec) (eps : R) (ex : vec) : vec :=
  let mean := mean_list ex in
  let var := mean_list (map (fun v => (v - mean) ^ 2) ex) in
  map (fun p =>
    let n := (nth p ex 0 - mean) / sqrt (eps + var) in
    let n := match gamma with Some g => n * bcast_last g p | None => n end in
    match beta with Some b => n + bcast_last b p | None => n end) (seq 0 (length ex)).

Definition layer_norm (x : list vec) (gamma beta : option vec) (eps : R) : list vec :=
  map (layer_norm_example gamma beta eps) x.

(** Finite sums [f 0 + ... + f (n-1)]. *)
Fixpoint sumN (n : nat) (f : nat -> R) : R :=
  match n with
  | O => 0
  | S n' => sumN n' f + f n'
  end.

Definition in_range (i : Z) (n : nat) : bool := ((0 <=? i)%Z && (i <? Z.of_nat n)%Z)%bool.

(** Rank-4 tensors [[B, H, W, C]] and 2-D filters [[kh, kw, in, out]]. *)
Record tensor4 : Type := mkT4 {
  t4_b : nat; t4_h : nat; t4_w : nat; t4_c : nat;
  t4_at : Z -> Z -> Z -> Z -> R
}.

Record filter2d : Type := mkF2 {
  f2_h : nat; f2_w : nat; f2_in : nat; f2_out : nat;
  f2_at : nat -> nat -> nat -> nat -> R
}.

(** Zero padding outside the spatial extent. *)
Definition get_pad4 (t : tensor4) (b i j c : Z) : R :=
  if (in_range i (t4_h t) && in_range j (t4_w t))%bool then t4_at t b i j c else 0.

(** [tf.reduce_mean(x, [3], keep_dims=True)] *)
Definition reduce_mean_c4 (t : tensor4) : tensor4 :=
  mkT4 (t4_b t) (t4_h t) (t4_w t) 1
    (fun b i j _ => sumN (t4_c t) (fun c => t4_at t b i j (Z.of_nat c)) / INR (t4_c t)).

(** [tf.ones([kh, kw, 1, 1]) / k] *)
Definition ones_filter2d (kh kw : nat) (k : R) : filter2d :=
  mkF2 kh kw 1 1 (fun _ _ _ _ => 1 / k).

(** [tf.nn.conv2d(x, w, strides=[1, 1, 1, 1], padding='SAME')]: the padding
    before is [(k - 1) / 2] rows (columns), the rest after. *)
Definition conv2d_same (x : tensor4) (w : filter2d) : tensor4 :=
  let pt := Z.of_nat ((f2_h w - 1) / 2) in
  let pl := Z.of_nat ((f2_w w - 1) / 2) in
  mkT4 (t4_b x) (t4_h x) (t4_w x) (f2_out w)
    (fun b i j o =>
       sumN (f2_h w) (fun a => sumN (f2_w w) (fun d => sumN (f2_in w) (fun ci =>
         get_pad4 x b (i + Z.of_nat a - pt) (j + Z.of_nat d - pl) (Z.of_nat ci) *
         f2_at w a d ci (Z.to_nat o))))).

(** [x - m] for [m] with a single channel, broadcast over the channels. *)
Definition sub_c4 (x m : tensor4) : tensor4 :=
  mkT4 (t4_b x) (t4_h x) (t4_w x) (t4_c x) (fun b i j c => t4_at x b i j c - t4_at m b i j 0).

Definition square4 (x : tensor4) : tensor4 :=
  mkT4 (t4_b x) (t4_h x) (t4_w x) (t4_c x) (fun b i j c => t4_at x b i j c ^ 2).

(** [tf.sqrt(x + eps)] *)
Definition sqrt_eps4 (x : tensor4) (eps : R) : tensor4 :=
  mkT4 (t4_b x) (t4_h x) (t4_w x) (t4_c x) (fun b i j c => sqrt (t4_at x b i j c + eps)).

(** [x / d] for [d] with a single channel. *)
Definition div_c4 (x d : tensor4) : tensor4 :=
  mkT4 (t4_b x) (t4_h x) (t4_w x) (t4_c x) (fun b i j c => t4_at x b i j c / t4_at d b i j 0).

(** [x *= gamma], [x += beta] for [gamma], [beta] broadcast along the
    channels, each only when given. *)
Definition apply_gamma_beta4 (x : tensor4) (gamma beta : option vec) : tensor4 :=
  let x := match gamma with
           | Some g => mkT4 (t4_b x) (t4_h x) (t4_w x) (t4_c x)
                         (fun b i j c => t4_at x b i j c * nth (Z.to_nat c) g 0)
           | None => x end in
  match beta with
  | Some bt => mkT4 (t4_b x) (t4_h x) (t4_w x) (t4_c x)
                 (fun b i j c => t4_at x b i j c + nth (Z.to_nat c) bt 0)
  | None => x
  end.

(** The two kernels [div_norm_2d] builds: [tf.ones(sum_window + [1, 1])] and
    [tf.ones(sup_window + [1, 1])], both divided by [np.prod(sum_window)]. *)
Definition div_norm_2d_kernels (sum_window sup_window : nat * nat) : filter2d * filter2d :=
  let (hs, ws) := sum_window in
  let (hp, wp) := sup_window in
  (ones_filter2d hs ws (INR (hs * ws)), ones_filter2d hp wp (INR (hs * ws))).

(** The keyword default [eps=1.0] of [div_norm_2d] and [div_norm_1d]. *)
Definition eps_or_default (eps : option R) : R :=
  match eps with Some e => e | None => 1 end.

(** [div_norm_2d]; the windows are [[H_sum, W_sum]] and [[H_sup, W_sup]],
    [None] for [eps] means the argument was not passed.
    Returns [(normed, x_mean)]. *)
Definition div_norm_2d (x : tensor4) (sum_window sup_window : nat * nat)
    (gamma beta : option vec) (eps : option R) : tensor4 * tensor4 :=
  let eps := eps_or_default eps in
  let (w_sum, w_sup) := div_norm_2d_kernels sum_window sup_window in
  let x_mean := reduce_mean_c4 x in
  let x_mean := conv2d_same x_mean w_sum in
  let normed := sub_c4 x x_mean in
  let x2 := square4 normed in
  let x2_mean := reduce_mean_c4 x2 in
  let x2_mean := conv2d_same x2_mean w_sup in
  let denom := sqrt_eps4 x2_mean eps in
  let normed := div_c4 normed denom in
  (apply_gamma_beta4 normed gamma beta, x_mean).

(** Rank-3 tensors [[B, D, C]] and 1-D filters [[k, in, out]]; a rank-2
    tensor [[B, D]] is a rank-3 one whose last axis is dropped. *)
Record tensor3 : Type := mkT3 {
  t3_b : nat; t3_d : nat; t3_c : nat;
  t3_at : Z -> Z -> Z -> R
}.

Record tensor2 : Type := mkT2 {
  t2_b : nat; t2_d : nat;
  t2_at : Z -> Z -> R
}.

Record filter1d : Type := mkF1 {
  f1_w : nat; f1_in : nat; f1_out : nat;
  f1_at : nat -> nat -> nat -> R
}.

Definition get_pad3 (t : tensor3) (b i c : Z) : R :=
  if in_range i (t3_d t) then t3_at t b i c else 0.

(** [tf.expand_dims(x, 2)] and [tf.squeeze(x, [2])] *)
Definition expand_dims2 (x : tensor2) : tensor3 :=
  mkT3 (t2_b x) (t2_d x) 1 (fun b i _ => t2_at x b i).

Definition squeeze2 (x : tensor3) : tensor2 :=
  mkT2 (t3_b x) (t3_d x) (fun b i => t3_at x b i 0).

(** [tf.ones([k, 1, 1]) / k'] *)
Definition ones_filter1d (k : nat) (k' : R) : filter1d := mkF1 k 1 1 (fun _ _ _ => 1 / k').

(** [tf.nn.conv1d(x, w, stride=1, padding='SAME')] *)
Definition conv1d_same (x : tensor3) (w : filter1d) : tensor3 :=
  let pl := Z.of_nat ((f1_w w - 1) / 2) in
  mkT3 (t3_b x) (t3_d x) (f1_out w)
    (fun b i o =>
       sumN (f1_w w) (fun a => sumN (f1_in w) (fun ci =>
         get_pad3 x b (i + Z.of_nat a - pl) (Z.of_nat ci) * f1_at w a ci (Z.to_nat o)))).

Definition zip3 (f : R -> R -> R) (x y : tensor3) : tensor3 :=
  mkT3 (t3_b x) (t3_d x) (t3_c x) (fun b i c => f (t3_at x b i c) (t3_at y b i c)).

Definition map3 (f : R -> R) (x : tensor3) : tensor3 :=
  mkT3 (t3_b x) (t3_d x) (t3_c x) (fun b i c => f (t3_at x b i c)).

Definition apply_gamma_beta2 (x : tensor2) (gamma beta : option vec) : tensor2 :=
  let x := match gamma with
           | Some g => mkT2 (t2_b x) (t2_d x) (fun b i => t2_at x b i * nth (Z.to_nat i) g 0)
           | None => x end in
  match beta with
  | Some bt => mkT2 (t2_b x) (t2_d x) (fun b i => t2_at x b i + nth (Z.to_nat i) bt 0)
  | None => x
  end.

(** The two kernels [div_norm_1d] builds: [tf.ones([sum_window, 1, 1]) /
    float(sum_window)] and [tf.ones([sup_window, 1, 1]) / float(sup_window)]. *)
Definition div_norm_1d_kernels (sum_window sup_window : nat) : filter1d * filter1d :=
  (ones_filter1d sum_window (INR sum_window), ones_filter1d sup_window (INR sup_window)).

(** [div_norm_1d]; returns [(normed, mean)]. *)
Definition div_norm_1d (x : tensor2) (sum_window sup_window : nat)
    (gamma beta : option vec) (eps : option R) : tensor2 * tensor2 :=
  let eps := eps_or_default eps in
  let x := expand_dims2 x in
  let (w_sum, w_sup) := div_norm_1d_kernels sum_window sup_window in
  let mean := conv1d_same x w_sum in
  let x_mean := zip3 Rminus x mean in
  let x2 := map3 (fun v => v ^ 2) x_mean in
  let var := conv1d_same x2 w_sup in
  let normed := zip3 (fun n v => n / sqrt (eps + v)) (zip3 Rminus x mean) var in
  let normed := squeeze2 normed in
  let mean := squeeze2 mean in
  (apply_gamma_beta2 normed gamma beta, mean).

(** Divisive normalization written out as the documentation describes it,
    index by index, to be compared with [div_norm_2d] and [div_norm_1d]. *)

(** Zero outside an [H x W] (resp. length [D]) extent. *)
Definition spec_pad2 (H W : nat) (f : Z -> Z -> R) (i j : Z) : R :=
  if (in_range i H && in_range j W)%bool then f i j else 0.

Definition spec_pad1 (D : nat) (f : Z -> R) (i : Z) : R :=
  if in_range i D then f i else 0.

(** Uniform box filter of extent [kh x kw] whose every weight is [1 / area],
    centred as by same-size padding ([(k - 1) / 2] before). *)
Definition spec_box2 (H W kh kw : nat) (area : R) (f : Z -> Z -> R) (i j : Z) : R :=
  1 / area * sumN kh (fun a => sumN kw (fun d =>
    spec_pad2 H W f (i + Z.of_nat a - Z.of_nat ((kh - 1) / 2))
                    (j + Z.of_nat d - Z.of_nat ((kw - 1) / 2)))).

Definition spec_box1 (D k : nat) (len : R) (f : Z -> R) (i : Z) : R :=
  1 / len * sumN k (fun a => spec_pad1 D f (i + Z.of_nat a - Z.of_nat ((k - 1) / 2))).

(** Mean over the [C] channels. *)
Definition spec_chan_mean (C : nat) (f : Z -> R) : R :=
  sumN C (fun c => f (Z.of_nat c)) / INR C.

(** [gamma], [beta] applied at position [k] of the last axis when given. *)
Definition spec_scale_shift (gamma beta : option vec) (k : Z) (v : R) : R :=
  let v := match gamma with Some g => v * nth (Z.to_nat k) g 0 | None => v end in
  match beta with Some bt => v + nth (Z.to_nat k) bt 0 | None => v end.

(** Steps (1)-(6) of the 2-D algorithm: both windows averaged with weight
    [1 / (H_sum * W_sum)]; returns the output and [x_mean] pointwise. *)
Definition div_norm_2d_spec (x : tensor4) (sum_window sup_window : nat * nat)
    (gamma beta : option vec) (eps : option R)
    : (Z -> Z -> Z -> Z -> R) * (Z -> Z -> Z -> R) :=
  let (hs, ws) := sum_window in
  let (hp, wp) := sup_window in
  let H := t4_h x in
  let W := t4_w x in
  let C := t4_c x in
  let area := INR (hs * ws) in
  let m b := spec_box2 H W hs ws area (fun i j => spec_chan_mean C (t4_at x b i j)) in
  let r b i j c := t4_at x b i j c - m b i j in
  let v b := spec_box2 H W hp wp area (fun i j => spec_chan_mean C (fun c => r b i j c ^ 2)) in
  (fun b i j c => spec_scale_shift gamma beta c (r b i j c / sqrt (v b i j + eps_or_default eps)),
   m).

(** The same steps on [[B, D]], without the channel axis, each window
    averaged over its own length. *)
Definition div_norm_1d_spec (x : tensor2) (sum_window sup_window : nat)
    (gamma beta : option vec) (eps : option R) : (Z -> Z -> R) * (Z -> Z -> R) :=
  let D := t2_d x in
  let m b := spec_box1 D sum_window (INR sum_window) (t2_at x b) in
  let r b i := t2_at x b i - m b i in
  let v b := spec_box1 D sup_window (INR sup_window) (fun i => r b i ^ 2) in
  (fun b i => spec_scale_shift gamma beta i (r b i / sqrt (v b i + eps_or_default eps)), m).

(** A [[B, D]] tensor viewed as an image [[B, 1, D, 1]]: one row, one channel. *)
Definition as_image (x : tensor2) : tensor4 :=
  mkT4 (t2_b x) 1 (t2_d x) 1 (fun b _ j _ => t2_at x b j).

Close Scope R_scope.

(** The weight-decay placement a layer builder is expected to respect: a
    penalty never sits on a bias ["b"], only on a weight ["w"], and every
    weight has one when a positive [wd] is given. *)
Definition penalty_only_on_weights (wd : option R) (v : variable) : Prop :=
  (var_local_name v = "b" -> var_reg v = None) /\
  (var_reg v <> None -> var_local_name v = "w") /\
  (forall w, wd = Some w -> (w > 0)%R -> var_local_name v = "w" -> var_reg v <> None).

(* ================================================================== *)
(** * Lemmas on graph construction *)

Lemma bind_ok_inv {A B} (m : M A) (k : A -> M B) st b st' :
  bind m k st = Ok b st' -> exists a st1, m st = Ok a st1 /\ k a st1 = Ok b st'.
Proof.
  unfold bind. destruct (m st) as [a st1|e]; intros H; [eauto|discriminate].
Qed.

Lemma bind_raise_inv {A B} (m : M A) (k : A -> M B) st e :
  bind m k st = Raise e ->
  m st = Raise e \/ exists a st1, m st = Ok a st1 /\ k a st1 = Raise e.
Proof.
  unfold bind. destruct (m st) as [a st1|e']; intros H; [right; eauto|left; congruence].
Qed.

Ltac inv_binds :=
  repeat match goal with
  | H : bind _ _ _ = Ok _ _ |- _ =>
      apply bind_ok_inv in H; destruct H as (? & ? & ? & H)
  end.

Lemma ret_ok_inv {A} (a a' : A) st st' : ret a st = Ok a' st' -> a' = a /\ st' = st.
Proof. unfold ret. intros H; inversion H; auto. Qed.

(** A computation that neither reads nor writes the store. *)
Definition pure_m {A} (m : M A) : Prop :=
  (exists a, forall st, m st = Ok a st) \/ (exists e, forall st, m st = Raise e).

Lemma pure_ret {A} (a : A) : pure_m (ret a).
Proof. left. exists a. reflexivity. Qed.

Lemma pure_raise {A} e : pure_m (@raise A e).
Proof. right. exists e. reflexivity. Qed.

Lemma pure_bind {A B} (m : M A) (k : A -> M B) :
  pure_m m -> (forall a, pure_m (k a)) -> pure_m (bind m k).
Proof.
  intros [[a Ha]|[e He]] Hk.
  - destruct (Hk a) as [[b Hb]|[e He]].
    + left. exists b. intros st. unfold bind. rewrite Ha. apply Hb.
    + right. exists e. intros st. unfold bind. rewrite Ha. apply He.
  - right. exists e. intros st. unfold bind. rewrite He. reflexivity.
Qed.

Lemma pure_py_contains k d : pure_m (py_contains k d).
Proof. destruct d; [apply pure_ret|apply pure_raise]. Qed.

Lemma pure_py_getitem k d : pure_m (py_getitem k d).
Proof.
  destruct d as [d|]; simpl; [|apply pure_raise].
  destruct (find _ d); [apply pure_ret|apply pure_raise].
Qed.

Lemma pure_py_index {A} (l : list A) i : pure_m (py_index l i).
Proof. unfold py_index. destruct (nth_error l i); [apply pure_ret|apply pure_raise]. Qed.

Lemma pure_py_index_opt {A} (o : option (list A)) i : pure_m (py_index_opt o i).
Proof. destruct o; [apply pure_py_index|apply pure_raise]. Qed.

Create HintDb pure.
#[local] Hint Resolve pure_ret pure_raise pure_py_contains pure_py_getitem
  pure_py_index pure_py_index_opt : pure.

Ltac solve_pure :=
  repeat first
    [ apply pure_bind; [solve_pure|intros]
    | match goal with |- pure_m (if ?b then _ else _) => destruct b end
    | solve [eauto with pure] ].

Lemma choose_initializer_pure im dt ip : pure_m (choose_initializer im dt ip).
Proof.
  unfold choose_initializer. destruct im as [m|]; [|apply pure_ret]. solve_pure.
Qed.

Lemma pure_ok_inv {A} (m : M A) a st st' : pure_m m -> m st = Ok a st' -> st' = st.
Proof.
  intros [[a' Ha]|[e He]] H.
  - rewrite Ha in H. inversion H. reflexivity.
  - rewrite He in H. discriminate.
Qed.

Lemma last_app_single (l : list string) (x : string) : last (l ++ [x]) EmptyString = x.
Proof.
  induction l as [|a l IH]; [reflexivity|].
  simpl. rewrite IH. destruct (l ++ [x]) eqn:E; [destruct l; discriminate|reflexivity].
Qed.

(** What a successful [weight_variable] does to the store. *)
Lemma weight_variable_ok shape im dt ip wd name tr st v st' :
  weight_variable shape im dt ip wd name tr st = Ok v st' ->
  st_vars st' = v :: st_vars st /\ st_scope st' = st_scope st /\
  var_name v = st_scope st ++ [name] /\ var_shape v = shape /\
  (exists pre, st_log st' = pre ++ st_log st /\
     ((forall w, wd = Some w -> (w <= 0)%R) -> In (Warning, MsgNoWeightDecay) pre)) /\
  (forall w, wd = Some w -> (w > 0)%R ->
     exists f, var_reg v = Some f /\ forall p, f p = (l2_loss p * w)%R) /\
  ((forall w, wd = Some w -> (w <= 0)%R) -> var_reg v = None).
Proof.
  destruct st as [vars sc lg].
  unfold weight_variable. intros H. inv_binds.
  apply pure_ok_inv in H1; [|apply choose_initializer_pure]. subst x2.
  assert (Hd : exists pre0, x0 = mkStore vars sc (pre0 ++ lg)).
  { destruct (dtype_eqb dt float32).
    - apply ret_ok_inv in H0. destruct H0; subst. exists []. reflexivity.
    - unfold log in H0. inversion H0; subst. exists [(Warning, MsgNotFloat32 dt)].
      reflexivity. }
  destruct Hd as [pre0 ->]. unfold log in H2. inversion H2; subst x3 x4. clear H2.
  unfold get_variable in H. simpl in H.
  destruct (existsb _ _); [discriminate|].
  destruct wd as [w|].
  - destruct (Rgt_dec w 0) as [Hw|Hw];
      unfold choose_regularizer, bind, log, ret in H3; destruct (Rgt_dec w 0);
      try contradiction; inversion H3; subst x5 x6; clear H3;
      inversion H; subst v st'; clear H; simpl.
    + repeat split; auto.
      * eexists (_ :: _ :: pre0). split; [reflexivity|].
        intros Hle. specialize (Hle w eq_refl). lra.
      * intros w' Hw' _. inversion Hw'; subst. eexists; split; [reflexivity|auto].
      * intros Hle. specialize (Hle w eq_refl). lra.
    + repeat split; auto.
      * eexists (_ :: _ :: pre0). split; [reflexivity|].
        intros _. left. reflexivity.
      * intros w' Hw' Hpos. inversion Hw'; subst. contradiction.
  - unfold choose_regularizer, bind, log, ret in H3. inversion H3; subst x5 x6; clear H3.
    inversion H; subst v st'; clear H; simpl.
    repeat split; auto.
    + eexists (_ :: _ :: pre0). split; [reflexivity|].
      intros _. left. reflexivity.
    + intros w' Hw'. discriminate.
Qed.

Lemma choose_regularizer_ok wd st :
  exists reg pre, choose_regularizer wd st =
    Ok reg (mkStore (st_vars st) (st_scope st) (pre ++ st_log st)).
Proof.
  destruct wd as [w|]; unfold choose_regularizer, bind, log, ret;
    [destruct (Rgt_dec w 0)|]; eexists; eexists (_ :: nil); reflexivity.
Qed.

(** The outcome of [weight_variable] being an exception does not depend on [wd]. *)
Lemma weight_variable_raise_wd shape im dt ip wd1 wd2 name tr st e :
  weight_variable shape im dt ip wd1 name tr st = Raise e ->
  weight_variable shape im dt ip wd2 name tr st = Raise e.
Proof.
  unfold weight_variable, bind.
  destruct ((if dtype_eqb dt float32 then ret tt else log Warning (MsgNotFloat32 dt)) st)
    as [u st1|e1]; [|auto].
  destruct (choose_initializer_pure im dt ip) as [[i Hi]|[e0 He]];
    [rewrite !Hi|rewrite !He; auto].
  unfold log.
  destruct (choose_regularizer_ok wd1
              (mkStore (st_vars st1) (st_scope st1) ((Info, MsgWeightShape shape) :: st_log st1)))
    as (r1 & p1 & ->).
  destruct (choose_regularizer_ok wd2
              (mkStore (st_vars st1) (st_scope st1) ((Info, MsgWeightShape shape) :: st_log st1)))
    as (r2 & p2 & ->).
  unfold get_variable. simpl.
  destruct (existsb _ _); [auto|discriminate].
Qed.

Lemma variable_scope_ok {A} s (body : M A) st a st' :
  variable_scope s body st = Ok a st' ->
  exists st1, body (mkStore (st_vars st) (st_scope st ++ [s]) (st_log st)) = Ok a st1 /\
              st' = mkStore (st_vars st1) (st_scope st) (st_log st1).
Proof.
  unfold variable_scope. destruct (body _) as [a1 st1|e]; intros H; [|discriminate].
  inversion H; subst. eauto.
Qed.

Lemma use_init_method_pure im ii : pure_m (use_init_method im ii).
Proof. destruct im; simpl; solve_pure. Qed.

Lemma mlp_act_pure act_fn ii : pure_m (mlp_act act_fn ii).
Proof. destruct act_fn as [[|? ?]|]; simpl; solve_pure. Qed.

Lemma mlp_dropout_flag_pure dropout ii : pure_m (mlp_dropout_flag dropout ii).
Proof. destruct dropout; simpl; solve_pure. Qed.

Lemma mlp_dropout_flag_val dropout ii st flag st' :
  mlp_dropout_flag dropout ii st = Ok flag st' ->
  flag = nth ii (match dropout with Some l => l | None => [] end) false.
Proof.
  destruct dropout as [l|]; simpl.
  - unfold py_index. destruct (nth_error l ii) eqn:E; intros H; inversion H; subst.
    symmetry. apply nth_error_nth. exact E.
  - intros H; inversion H. destruct ii; reflexivity.
Qed.

Lemma weight_variable_w_ok shape im dt ip wd tr st v st' :
  weight_variable shape im dt ip wd "w" tr st = Ok v st' -> penalty_only_on_weights wd v.
Proof.
  intros H. apply weight_variable_ok in H as (_ & _ & Hn & _ & _ & Hpos & _).
  unfold penalty_only_on_weights, var_local_name. rewrite Hn, last_app_single.
  repeat split; try discriminate; auto.
  intros w Hw Hgt _. destruct (Hpos w Hw Hgt) as (f & -> & _). discriminate.
Qed.

Lemma weight_variable_b_ok shape im dt ip wd tr st v st' :
  weight_variable shape im dt ip None "b" tr st = Ok v st' -> penalty_only_on_weights wd v.
Proof.
  intros H. apply weight_variable_ok in H as (_ & _ & Hn & _ & _ & _ & Hnone).
  assert (Hr : var_reg v = None) by (apply Hnone; discriminate).
  unfold penalty_only_on_weights, var_local_name. rewrite Hn, last_app_single, Hr.
  repeat split; try discriminate; auto. intros Hc; contradiction.
Qed.

Ltac kill_pure :=
  repeat match goal with
  | H : py_index _ _ ?s = Ok _ ?s' |- _ =>
      apply pure_ok_inv in H; [subst s'|apply pure_py_index]
  | H : py_index_opt _ _ ?s = Ok _ ?s' |- _ =>
      apply pure_ok_inv in H; [subst s'|apply pure_py_index_opt]
  | H : use_init_method _ _ ?s = Ok _ ?s' |- _ =>
      apply pure_ok_inv in H; [subst s'|apply use_init_method_pure]
  | H : mlp_act _ _ ?s = Ok _ ?s' |- _ =>
      apply pure_ok_inv in H; [subst s'|apply mlp_act_pure]
  | H : cur_scope ?s = Ok _ ?s' |- _ => unfold cur_scope in H; inversion H; subst; clear H
  | H : ret _ ?s = Ok _ ?s' |- _ => apply ret_ok_inv in H; destruct H; subst
  end.

Lemma mlp_layer_ok dims is_training act_fn dt add_bias wd init_std init_method dropout
    trainable ii h st h' st' :
  mlp_layer dims is_training act_fn dt add_bias wd init_std init_method dropout trainable
    ii h st = Ok h' st' ->
  st_scope st' = st_scope st /\
  (exists new, st_vars st' = new ++ st_vars st /\ Forall (penalty_only_on_weights wd) new) /\
  dropout_sites h' = dropout_sites h ++
     (if nth ii (match dropout with Some l => l | None => [] end) false
      then [(st_scope st ++ [layer_scope ii], if is_training then 1/2 else 1)%R] else []).
Proof.
  intros H. apply variable_scope_ok in H. destruct H as (st1 & H & ->). simpl.
  split; [reflexivity|].
  unfold mlp_layer in H. inv_binds.
  pose proof (mlp_dropout_flag_val _ _ _ _ _ H7) as Hflag.
  apply pure_ok_inv in H7; [|apply mlp_dropout_flag_pure]. subst x14.
  kill_pure.
  assert (Hw : exists s std, weight_variable [x; x1] s dt
                 (Some [("mean", 0%R); ("stddev", std)]) wd "w" trainable
                 (mkStore (st_vars st) (st_scope st ++ [layer_scope ii]) (st_log st))
               = Ok x5 x6).
  { destruct x3; inv_binds; kill_pure; eauto. }
  clear H3. destruct Hw as (s & std & Hw).
  pose proof (weight_variable_w_ok _ _ _ _ _ _ _ _ _ Hw) as Pw.
  apply weight_variable_ok in Hw as (Hw1 & Hw2 & _). simpl in Hw1, Hw2.
  assert (Hb : (x7 = None /\ x10 = x6) \/
               exists bv, x7 = Some bv /\ st_vars x10 = bv :: st_vars x6 /\
                          st_scope x10 = st_scope x6 /\ penalty_only_on_weights wd bv).
  { destruct add_bias; inv_binds; kill_pure; [right|left; auto].
    match goal with Hb : weight_variable _ _ _ _ _ "b" _ _ = Ok _ _ |- _ =>
      pose proof (weight_variable_b_ok _ _ _ _ wd _ _ _ _ Hb) as Pb;
      apply weight_variable_ok in Hb as (Hb1 & Hb2 & _) end. eauto. }
  clear H4.
  assert (Hv : st_vars st1 = st_vars x10 /\ st_scope x10 = st_scope st ++ [layer_scope ii]).
  { destruct (nth _ _ _); inv_binds; kill_pure; [|split; [reflexivity|]].
    - unfold log in H0. inversion H0; subst. split; [reflexivity|].
      destruct Hb as [[_ ->]|(bv & _ & _ & -> & _)]; exact Hw2.
    - destruct Hb as [[_ ->]|(bv & _ & _ & -> & _)]; exact Hw2. }
  destruct Hv as [Hv Hsc]. rewrite Hv. split.
  - destruct Hb as [[-> ->]|(bv & -> & Hb1 & _ & Pb)].
    + exists [x5]. split; [rewrite Hw1; reflexivity|]. constructor; auto.
    + exists [bv; x5]. split; [rewrite Hb1, Hw1; reflexivity|]. repeat apply Forall_cons; auto.
  - rewrite <- Hsc.
    destruct (nth _ _ _); inv_binds; kill_pure.
    + unfold log in H0. inversion H0; subst. simpl.
      destruct x11, x7; reflexivity.
    + rewrite app_nil_r. destruct x11, x7; reflexivity.
Qed.

Lemma mlp_layers_ok dims is_training act_fn dt add_bias wd init_std init_method dropout
    trainable k : forall ii h st h' st',
  mlp_layers dims is_training act_fn dt add_bias wd init_std init_method dropout trainable
    ii k h st = Ok h' st' ->
  st_scope st' = st_scope st /\
  (exists new, st_vars st' = new ++ st_vars st /\ Forall (penalty_only_on_weights wd) new) /\
  dropout_sites h' = dropout_sites h ++
    flat_map (fun j =>
      if nth j (match dropout with Some l => l | None => [] end) false
      then [(st_scope st ++ [layer_scope j], if is_training then 1/2 else 1)%R] else [])
      (seq ii k).
Proof.
  induction k as [|k IH]; intros ii h st h' st' H; simpl in H.
  - apply ret_ok_inv in H as [-> ->]. simpl. rewrite app_nil_r.
    repeat split; auto. exists []. auto.
  - inv_binds.
    apply mlp_layer_ok in H0 as (Hs1 & (n1 & Hv1 & P1) & Hd1).
    apply IH in H as (Hs2 & (n2 & Hv2 & P2) & Hd2).
    repeat split.
    + congruence.
    + exists (n2 ++ n1). rewrite Hv2, Hv1, app_assoc. split; [reflexivity|].
      apply Forall_app; auto.
    + rewrite Hd2, Hd1, Hs1. simpl. rewrite app_assoc. reflexivity.
Qed.

Lemma mlp_ok dims is_training act_fn dt add_bias wd init_std init_method dropout
    trainable x scope st h st' :
  mlp dims is_training act_fn dt add_bias wd init_std init_method dropout trainable
    x scope st = Ok h st' ->
  st_scope st' = st_scope st /\
  (exists new, st_vars st' = new ++ st_vars st /\ Forall (penalty_only_on_weights wd) new) /\
  dropout_sites h = dropout_sites x ++
    flat_map (fun j =>
      if nth j (match dropout with Some l => l | None => [] end) false
      then [((st_scope st ++ [scope]) ++ [layer_scope j],
             if is_training then 1/2 else 1)%R] else [])
      (seq 0 (length dims - 1)).
Proof.
  unfold mlp. intros H. apply variable_scope_ok in H as (st1 & H & ->).
  apply mlp_layers_ok in H as (_ & (n & Hv & P) & Hd). simpl in *.
  repeat split; auto. exists n. auto.
Qed.

(** [floor(keep_prob + u)] for a sample [u] in [[0, 1)]. *)
Lemma Int_part_keep_one u : (0 <= u < 1)%R -> Int_part (1 + u) = 1%Z.
Proof. intros Hu. symmetry. apply Int_part_spec. simpl. lra. Qed.

Lemma Int_part_keep_half u :
  (0 <= u < 1)%R -> Int_part (1/2 + u) = (if Rlt_dec u (1/2) then 0 else 1)%Z.
Proof.
  intros Hu. symmetry. apply Int_part_spec. destruct (Rlt_dec u (1/2)); simpl; lra.
Qed.

Lemma cnn_layer_ok filter_size strides pool_fn pool_size pool_strides act_fn dt add_bias wd
    init_std init_method trainable ii h st h' st' :
  cnn_layer filter_size strides pool_fn pool_size pool_strides act_fn dt add_bias wd
    init_std init_method trainable ii h st = Ok h' st' ->
  st_scope st' = st_scope st /\
  (exists new, st_vars st' = new ++ st_vars st /\ Forall (penalty_only_on_weights wd) new).
Proof.
  intros H. apply variable_scope_ok in H. destruct H as (st1 & H & ->). simpl.
  split; [reflexivity|].
  unfold cnn_layer in H. inv_binds. kill_pure.
  assert (Hw : exists fs s std, weight_variable fs s dt
                 (Some [("mean", 0%R); ("stddev", std)]) wd "w" trainable
                 (mkStore (st_vars st) (st_scope st ++ [layer_scope ii]) (st_log st))
               = Ok x1 x2).
  { destruct x; inv_binds; kill_pure; eauto. }
  clear H1. destruct Hw as (fs & s & std & Hw).
  pose proof (weight_variable_w_ok _ _ _ _ _ _ _ _ _ Hw) as Pw.
  apply weight_variable_ok in Hw as (Hw1 & Hw2 & _). simpl in Hw1, Hw2.
  assert (Hb : (x3 = None /\ x6 = x2) \/
               exists bv, x3 = Some bv /\ st_vars x6 = bv :: st_vars x2 /\
                          st_scope x6 = st_scope x2 /\ penalty_only_on_weights wd bv).
  { destruct add_bias; inv_binds; kill_pure; [right|left; auto].
    match goal with Hb : weight_variable _ _ _ _ _ "b" _ _ = Ok _ _ |- _ =>
      pose proof (weight_variable_b_ok _ _ _ _ wd _ _ _ _ Hb) as Pb;
      apply weight_variable_ok in Hb as (Hb1 & Hb2 & _) end. eauto. }
  clear H2.
  assert (Hv : st_vars st1 = st_vars x6).
  { destruct x11; inv_binds; kill_pure; reflexivity. }
  rewrite Hv.
  destruct Hb as [[-> ->]|(bv & -> & Hb1 & _ & Pb)].
  - exists [x1]. split; [rewrite Hw1; reflexivity|]. constructor; auto.
  - exists [bv; x1]. split; [rewrite Hb1, Hw1; reflexivity|]. repeat apply Forall_cons; auto.
Qed.

Lemma cnn_layers_ok filter_size strides pool_fn pool_size pool_strides act_fn dt add_bias wd
    init_std init_method trainable k : forall ii h st h' st',
  cnn_layers filter_size strides pool_fn pool_size pool_strides act_fn dt add_bias wd
    init_std init_method trainable ii k h st = Ok h' st' ->
  st_scope st' = st_scope st /\
  (exists new, st_vars st' = new ++ st_vars st /\ Forall (penalty_only_on_weights wd) new).
Proof.
  induction k as [|k IH]; intros ii h st h' st' H; simpl in H.
  - apply ret_ok_inv in H as [-> ->]. split; auto. exists []. auto.
  - inv_binds.
    apply cnn_layer_ok in H0 as (Hs1 & (n1 & Hv1 & P1)).
    apply IH in H as (Hs2 & (n2 & Hv2 & P2)).
    split; [congruence|].
    exists (n2 ++ n1). rewrite Hv2, Hv1, app_assoc. split; [reflexivity|].
    apply Forall_app; auto.
Qed.

Lemma name_eqb_refl a : name_eqb a a = true.
Proof. induction a as [|x a IH]; simpl; [reflexivity|]. rewrite String.eqb_refl. exact IH. Qed.

Lemma existsb_name_false full vars :
  existsb (fun v0 => name_eqb (var_name v0) full) vars = false ->
  ~ In full (map var_name vars).
Proof.
  intros H Hin. apply in_map_iff in Hin as (v0 & Hn & Hv0).
  assert (existsb (fun v0 => name_eqb (var_name v0) full) vars = true)
    by (apply existsb_exists; exists v0; split; [exact Hv0|rewrite Hn; apply name_eqb_refl]).
  congruence.
Qed.

Lemma py_index_val {A} (l : list A) i st a st' :
  py_index l i st = Ok a st' -> nth_error l i = Some a.
Proof. unfold py_index, ret, raise. destruct (nth_error l i); intros H; inversion H; auto. Qed.

Lemma existsb_find {A} (f : A -> bool) l :
  existsb f l = match find f l with Some _ => true | None => false end.
Proof. induction l as [|a l IH]; simpl; [reflexivity|]. destruct (f a); auto. Qed.

Lemma weight_variable_spec shape im dt ip wd name tr st v st' :
  weight_variable shape im dt ip wd name tr st = Ok v st' ->
  choose_initializer im dt ip st = Ok (var_init v) st /\
  v = mkVariable (st_scope st ++ [name]) shape (var_init v) (var_reg v) dt tr "/cpu:0" /\
  st_vars st' = v :: st_vars st /\ st_scope st' = st_scope st /\
  ~ In (st_scope st ++ [name]) (map var_name (st_vars st)).
Proof.
  destruct st as [vars sc lg]. unfold weight_variable. intros H.
  destruct (choose_initializer_pure im dt ip) as [[i Hi]|[e He]].
  2: { unfold bind in H. destruct (dtype_eqb dt float32); cbn in H; rewrite He in H; discriminate. }
  set (st1 := mkStore vars sc ((if dtype_eqb dt float32 then [] else [(Warning, MsgNotFloat32 dt)]) ++ lg)).
  assert (E1 : (if dtype_eqb dt float32 then ret tt else log Warning (MsgNotFloat32 dt))
                 (mkStore vars sc lg) = Ok tt st1)
    by (unfold st1; destruct (dtype_eqb dt float32); reflexivity).
  unfold bind in H. rewrite E1, Hi in H. unfold log in H.
  destruct (choose_regularizer_ok wd (mkStore (st_vars st1) (st_scope st1)
              ((Info, MsgWeightShape shape) :: st_log st1))) as (reg & pre & Er).
  rewrite Er in H. unfold get_variable in H. cbn [st_vars st_scope st_log st1] in H.
  destruct (existsb _ vars) eqn:Ex; [discriminate|]. injection H as <- <-.
  cbn [st_scope st_vars var_init var_reg]. repeat split; auto.
  apply existsb_name_false. exact Ex.
Qed.

Lemma mlp_layer_vars dims is_training act_fn dt add_bias wd init_std init_method dropout
    trainable ii h st h' st' :
  mlp_layer dims is_training act_fn dt add_bias wd init_std init_method dropout trainable
    ii h st = Ok h' st' ->
  st_scope st' = st_scope st /\
  exists new, st_vars st' = new ++ st_vars st /\
    map (fun v => (var_name v, var_shape v)) new =
      (if add_bias then [((st_scope st ++ [layer_scope ii]) ++ ["b"], [nth (S ii) dims 0%nat])]
       else []) ++
      [((st_scope st ++ [layer_scope ii]) ++ ["w"], [nth ii dims 0%nat; nth (S ii) dims 0%nat])] /\
    (NoDup (map var_name (st_vars st)) -> NoDup (map var_name (st_vars st'))).
Proof.
  intros H. apply variable_scope_ok in H. destruct H as (st1 & H & ->). simpl.
  split; [reflexivity|].
  unfold mlp_layer in H. inv_binds.
  apply pure_ok_inv in H7; [|apply mlp_dropout_flag_pure]. subst x14.
  match goal with H1 : py_index dims ii _ = Ok _ _ |- _ =>
    pose proof (py_index_val _ _ _ _ _ H1) as Ein end.
  match goal with H1 : py_index dims (S ii) _ = Ok _ _ |- _ =>
    pose proof (py_index_val _ _ _ _ _ H1) as Eout end.
  apply nth_error_nth with (d := 0%nat) in Ein, Eout.
  kill_pure.
  assert (Hw : exists s std, weight_variable [nth ii dims 0%nat; nth (S ii) dims 0%nat] s dt
                 (Some [("mean", 0%R); ("stddev", std)]) wd "w" trainable
                 (mkStore (st_vars st) (st_scope st ++ [layer_scope ii]) (st_log st))
               = Ok x5 x6).
  { destruct x3; inv_binds; kill_pure; eauto. }
  clear H3. destruct Hw as (s & std & Hw).
  apply weight_variable_spec in Hw as (_ & Ew & Hw1 & Hw2 & Hwn). simpl in Hw1, Hw2, Hwn.
  assert (Hb : (x7 = None /\ x10 = x6 /\ add_bias = false) \/
               exists bv, x7 = Some bv /\ st_vars x10 = bv :: st_vars x6 /\
                          st_scope x10 = st_scope x6 /\ add_bias = true /\
                          var_name bv = st_scope x6 ++ ["b"] /\ var_shape bv = [nth (S ii) dims 0%nat] /\
                          ~ In (st_scope x6 ++ ["b"]) (map var_name (st_vars x6))).
  { destruct add_bias; inv_binds; kill_pure; [right|left; auto].
    match goal with Hb : weight_variable _ _ _ _ _ "b" _ _ = Ok _ _ |- _ =>
      apply weight_variable_spec in Hb as (_ & Eb & Hb1 & Hb2 & Hbn) end.
    eexists; repeat split; eauto; rewrite Eb; reflexivity. }
  clear H4.
  assert (Hv : st_vars st1 = st_vars x10).
  { destruct x13; inv_binds; kill_pure; [|reflexivity].
    unfold log in H0. inversion H0; subst. reflexivity. }
  rewrite Hv. rewrite Hw2 in Hb.
  destruct Hb as [(-> & -> & ->)|(bv & -> & Hb1 & _ & -> & Hbn & Hbs & Hbi)].
  - exists [x5]. rewrite Hw1. split; [reflexivity|]. split.
    + rewrite Ew. reflexivity.
    + intros Hnd. simpl. constructor; [|exact Hnd]. rewrite Ew. exact Hwn.
  - exists [bv; x5]. rewrite Hb1, Hw1. split; [reflexivity|]. split.
    + simpl. rewrite Hbn, Hbs, Ew. reflexivity.
    + intros Hnd. simpl. rewrite Hw1 in Hbi. rewrite Hbn. constructor; [exact Hbi|].
      constructor; [|exact Hnd]. rewrite Ew. exact Hwn.
Qed.

Lemma mlp_layers_vars dims is_training act_fn dt add_bias wd init_std init_method dropout
    trainable k : forall ii h st h' st',
  mlp_layers dims is_training act_fn dt add_bias wd init_std init_method dropout trainable
    ii k h st = Ok h' st' ->
  st_scope st' = st_scope st /\
  exists new, st_vars st' = new ++ st_vars st /\
    map (fun v => (var_name v, var_shape v)) new =
      flat_map (fun j =>
        (if add_bias then [((st_scope st ++ [layer_scope j]) ++ ["b"], [nth (S j) dims 0%nat])]
         else []) ++
        [((st_scope st ++ [layer_scope j]) ++ ["w"], [nth j dims 0%nat; nth (S j) dims 0%nat])])
        (rev (seq ii k)) /\
    (NoDup (map var_name (st_vars st)) -> NoDup (map var_name (st_vars st'))).
Proof.
  induction k as [|k IH]; intros ii h st h' st' H; simpl in H.
  - apply ret_ok_inv in H as [-> ->]. split; [reflexivity|]. exists []. auto.
  - inv_binds.
    apply mlp_layer_vars in H0 as (Hs1 & n1 & Hv1 & Hm1 & Hd1).
    apply IH in H as (Hs2 & n2 & Hv2 & Hm2 & Hd2).
    split; [congruence|]. exists (n2 ++ n1). split; [rewrite Hv2, Hv1, app_assoc; reflexivity|].
    split; [|auto].
    rewrite map_app, Hm2, Hm1, Hs1. cbn [seq rev]. rewrite flat_map_app. cbn [flat_map].
    rewrite app_nil_r. reflexivity.
Qed.

Lemma cnn_layer_vars filter_size strides pool_fn pool_size pool_strides act_fn dt add_bias wd
    init_std init_method trainable ii h st h' st' :
  cnn_layer filter_size strides pool_fn pool_size pool_strides act_fn dt add_bias wd
    init_std init_method trainable ii h st = Ok h' st' ->
  st_scope st' = st_scope st /\
  exists new, st_vars st' = new ++ st_vars st /\
    map (fun v => (var_name v, var_shape v)) new =
      (if add_bias then [((st_scope st ++ [layer_scope ii]) ++ ["b"],
                          [nth 3 (nth ii filter_size []) 0%nat])]
       else []) ++
      [((st_scope st ++ [layer_scope ii]) ++ ["w"], nth ii filter_size [])] /\
    (NoDup (map var_name (st_vars st)) -> NoDup (map var_name (st_vars st'))).
Proof.
  intros H. apply variable_scope_ok in H. destruct H as (st1 & H & ->). simpl.
  split; [reflexivity|].
  unfold cnn_layer in H. inv_binds. kill_pure.
  assert (Hw : exists s std, weight_variable (nth ii filter_size []) s dt
                 (Some [("mean", 0%R); ("stddev", std)]) wd "w" trainable
                 (mkStore (st_vars st) (st_scope st ++ [layer_scope ii]) (st_log st))
               = Ok x1 x2).
  { destruct x; inv_binds;
      match goal with H1 : py_index filter_size ii _ = Ok _ _ |- _ =>
        pose proof (py_index_val _ _ _ _ _ H1) as Efs;
        apply nth_error_nth with (d := []) in Efs end;
      kill_pure; subst; eauto. }
  clear H1. destruct Hw as (s & std & Hw).
  apply weight_variable_spec in Hw as (_ & Ew & Hw1 & Hw2 & Hwn). simpl in Hw1, Hw2, Hwn.
  assert (Hb : (x3 = None /\ x6 = x2 /\ add_bias = false) \/
               exists bv, x3 = Some bv /\ st_vars x6 = bv :: st_vars x2 /\
                          st_scope x6 = st_scope x2 /\ add_bias = true /\
                          var_name bv = st_scope x2 ++ ["b"] /\
                          var_shape bv = [nth 3 (nth ii filter_size []) 0%nat] /\
                          ~ In (st_scope x2 ++ ["b"]) (map var_name (st_vars x2))).
  { destruct add_bias; inv_binds; [right|kill_pure; left; auto].
    match goal with H1 : py_index filter_size ii _ = Ok _ _ |- _ =>
      pose proof (py_index_val _ _ _ _ _ H1) as Efs;
      apply nth_error_nth with (d := []) in Efs end.
    match goal with H1 : py_index _ 3 _ = Ok _ _ |- _ =>
      pose proof (py_index_val _ _ _ _ _ H1) as Ed;
      apply nth_error_nth with (d := 0%nat) in Ed end.
    kill_pure. subst.
    match goal with Hb : weight_variable _ _ _ _ _ "b" _ _ = Ok _ _ |- _ =>
      apply weight_variable_spec in Hb as (_ & Eb & Hb1 & Hb2 & Hbn) end.
    eexists; repeat split; eauto; rewrite Eb; reflexivity. }
  clear H2.
  assert (Hv : st_vars st1 = st_vars x6).
  { destruct x11; inv_binds; kill_pure; reflexivity. }
  rewrite Hv. rewrite Hw2 in Hb.
  destruct Hb as [(-> & -> & ->)|(bv & -> & Hb1 & _ & -> & Hbn & Hbs & Hbi)].
  - exists [x1]. rewrite Hw1. split; [reflexivity|]. split.
    + rewrite Ew. reflexivity.
    + intros Hnd. simpl. constructor; [|exact Hnd]. rewrite Ew. exact Hwn.
  - exists [bv; x1]. rewrite Hb1, Hw1. split; [reflexivity|]. split.
    + simpl. rewrite Hbn, Hbs, Ew. reflexivity.
    + intros Hnd. simpl. rewrite Hw1 in Hbi. rewrite Hbn. constructor; [exact Hbi|].
      constructor; [|exact Hnd]. rewrite Ew. exact Hwn.
Qed.

Lemma cnn_layers_vars filter_size strides pool_fn pool_size pool_strides act_fn dt add_bias wd
    init_std init_method trainable k : forall ii h st h' st',
  cnn_layers filter_size strides pool_fn pool_size pool_strides act_fn dt add_bias wd
    init_std init_method trainable ii k h st = Ok h' st' ->
  st_scope st' = st_scope st /\
  exists new, st_vars st' = new ++ st_vars st /\
    map (fun v => (var_name v, var_shape v)) new =
      flat_map (fun j =>
        (if add_bias then [((st_scope st ++ [layer_scope j]) ++ ["b"],
                            [nth 3 (nth j filter_size []) 0%nat])]
         else []) ++
        [((st_scope st ++ [layer_scope j]) ++ ["w"], nth j filter_size [])])
        (rev (seq ii k)) /\
    (NoDup (map var_name (st_vars st)) -> NoDup (map var_name (st_vars st'))).
Proof.
  induction k as [|k IH]; intros ii h st h' st' H; simpl in H.
  - apply ret_ok_inv in H as [-> ->]. split; [reflexivity|]. exists []. auto.
  - inv_binds.
    apply cnn_layer_vars in H0 as (Hs1 & n1 & Hv1 & Hm1 & Hd1).
    apply IH in H as (Hs2 & n2 & Hv2 & Hm2 & Hd2).
    split; [congruence|]. exists (n2 ++ n1). split; [rewrite Hv2, Hv1, app_assoc; reflexivity|].
    split; [|auto].
    rewrite map_app, Hm2, Hm1, Hs1. cbn [seq rev]. rewrite flat_map_app. cbn [flat_map].
    rewrite app_nil_r. reflexivity.
Qed.

Lemma mlp_layer_refs dims is_training act_fn dt add_bias wd init_std init_method dropout
    trainable ii h st h' st' :
  mlp_layer dims is_training act_fn dt add_bias wd init_std init_method dropout trainable
    ii h st = Ok h' st' ->
  var_refs h' = var_refs h ++ [(st_scope st ++ [layer_scope ii]) ++ ["w"]] ++
    (if add_bias then [(st_scope st ++ [layer_scope ii]) ++ ["b"]] else []).
Proof.
  intros H. apply variable_scope_ok in H. destruct H as (st1 & H & _).
  unfold mlp_layer in H. inv_binds.
  apply pure_ok_inv in H7; [|apply mlp_dropout_flag_pure]. subst x14.
  kill_pure.
  assert (Hw : exists sh s std, weight_variable sh s dt
                 (Some [("mean", 0%R); ("stddev", std)]) wd "w" trainable
                 (mkStore (st_vars st) (st_scope st ++ [layer_scope ii]) (st_log st))
               = Ok x5 x6).
  { destruct x3; inv_binds; kill_pure; eauto. }
  clear H3. destruct Hw as (sh & s & std & Hw).
  apply weight_variable_spec in Hw as (_ & Ew & _ & Hw2 & _). simpl in Hw2.
  assert (Hb : (x7 = None /\ add_bias = false) \/
               exists bv, x7 = Some bv /\ add_bias = true /\ var_name bv = st_scope x6 ++ ["b"]).
  { destruct add_bias; inv_binds; kill_pure; [right|left; auto].
    match goal with Hb : weight_variable _ _ _ _ _ "b" _ _ = Ok _ _ |- _ =>
      apply weight_variable_spec in Hb as (_ & Eb & _) end.
    eexists; repeat split; rewrite Eb; reflexivity. }
  clear H4. rewrite Hw2 in Hb.
  destruct x13; inv_binds; kill_pure; [unfold log in H0; inversion H0; subst|];
    destruct Hb as [(-> & ->)|(bv & -> & -> & Hbn)]; destruct x11; simpl;
    rewrite ?Hbn, Ew; simpl; rewrite <- ?app_assoc; reflexivity.
Qed.

Lemma cnn_layer_refs filter_size strides pool_fn pool_size pool_strides act_fn dt add_bias wd
    init_std init_method trainable ii h st h' st' :
  cnn_layer filter_size strides pool_fn pool_size pool_strides act_fn dt add_bias wd
    init_std init_method trainable ii h st = Ok h' st' ->
  var_refs h' = var_refs h ++ [(st_scope st ++ [layer_scope ii]) ++ ["w"]] ++
    (if add_bias then [(st_scope st ++ [layer_scope ii]) ++ ["b"]] else []).
Proof.
  intros H. apply variable_scope_ok in H. destruct H as (st1 & H & _).
  unfold cnn_layer in H. inv_binds. kill_pure.
  assert (Hw : exists sh s std, weight_variable sh s dt
                 (Some [("mean", 0%R); ("stddev", std)]) wd "w" trainable
                 (mkStore (st_vars st) (st_scope st ++ [layer_scope ii]) (st_log st))
               = Ok x1 x2).
  { destruct x; inv_binds; kill_pure; eauto. }
  clear H1. destruct Hw as (sh & s & std & Hw).
  apply weight_variable_spec in Hw as (_ & Ew & _ & Hw2 & _). simpl in Hw2.
  assert (Hb : (x3 = None /\ add_bias = false) \/
               exists bv, x3 = Some bv /\ add_bias = true /\ var_name bv = st_scope x2 ++ ["b"]).
  { destruct add_bias; inv_binds; kill_pure; [right|left; auto].
    match goal with Hb : weight_variable _ _ _ _ _ "b" _ _ = Ok _ _ |- _ =>
      apply weight_variable_spec in Hb as (_ & Eb & _) end.
    eexists; repeat split; rewrite Eb; reflexivity. }
  clear H2. rewrite Hw2 in Hb.
  destruct x11; inv_binds; kill_pure;
    destruct Hb as [(-> & ->)|(bv & -> & -> & Hbn)]; destruct x9; simpl;
    rewrite ?Hbn, Ew; simpl; rewrite <- ?app_assoc; reflexivity.
Qed.

Lemma mlp_layers_refs dims is_training act_fn dt add_bias wd init_std init_method dropout
    trainable k : forall ii h st h' st',
  mlp_layers dims is_training act_fn dt add_bias wd init_std init_method dropout trainable
    ii k h st = Ok h' st' ->
  var_refs h' = var_refs h ++
    flat_map (fun j => [(st_scope st ++ [layer_scope j]) ++ ["w"]] ++
                       (if add_bias then [(st_scope st ++ [layer_scope j]) ++ ["b"]] else []))
      (seq ii k).
Proof.
  induction k as [|k IH]; intros ii h st h' st' H; simpl in H.
  - apply ret_ok_inv in H as [-> ->]. simpl. rewrite app_nil_r. reflexivity.
  - inv_binds.
    pose proof (mlp_layer_refs _ _ _ _ _ _ _ _ _ _ _ _ _ _ _ H0) as Hr1.
    apply mlp_layer_vars in H0 as (Hs1 & _).
    apply IH in H. rewrite H, Hr1, Hs1. simpl. rewrite <- !app_assoc. reflexivity.
Qed.

Lemma cnn_layers_refs filter_size strides pool_fn pool_size pool_strides act_fn dt add_bias wd
    init_std init_method trainable k : forall ii h st h' st',
  cnn_layers filter_size strides pool_fn pool_size pool_strides act_fn dt add_bias wd
    init_std init_method trainable ii k h st = Ok h' st' ->
  var_refs h' = var_refs h ++
    flat_map (fun j => [(st_scope st ++ [layer_scope j]) ++ ["w"]] ++
                       (if add_bias then [(st_scope st ++ [layer_scope j]) ++ ["b"]] else []))
      (seq ii k).
Proof.
  induction k as [|k IH]; intros ii h st h' st' H; simpl in H.
  - apply ret_ok_inv in H as [-> ->]. simpl. rewrite app_nil_r. reflexivity.
  - inv_binds.
    pose proof (cnn_layer_refs _ _ _ _ _ _ _ _ _ _ _ _ _ _ _ _ _ H0) as Hr1.
    apply cnn_layer_vars in H0 as (Hs1 & _).
    apply IH in H. rewrite H, Hr1, Hs1. simpl. rewrite <- !app_assoc. reflexivity.
Qed.

(* ================================================================== *)
(** * Lemmas on the normalisation values *)

Section NumLemmas.
Local Open Scope R_scope.

Lemma nth_map_seq (f : nat -> R) n c : (c < n)%nat -> nth c (map f (seq 0 n)) 0 = f c.
Proof.
  intros Hc. rewrite nth_indep with (d' := f 0%nat) by (rewrite length_map, length_seq; lia).
  rewrite map_nth, seq_nth by lia. reflexivity.
Qed.

Lemma map_seq_ext (f g : nat -> R) n :
  (forall c, (c < n)%nat -> f c = g c) -> map f (seq 0 n) = map g (seq 0 n).
Proof.
  intros H. apply map_ext_in. intros c Hc. apply in_seq in Hc. apply H. lia.
Qed.

(** [bcast_rows] keeps the row lengths and works entry by entry. *)
Lemma bcast_rows_spec f rows v :
  bcast_rows f rows v =
  map (fun r => map (fun c => f (nth c r 0) (nth c v 0)) (seq 0 (length r))) rows.
Proof. reflexivity. Qed.

(** [tf.nn.batch_normalization] is [(x - mean) / sqrt(var + eps) * gamma + beta]. *)
Lemma batch_normalization_formula rows mean var beta gamma eps :
  batch_normalization rows mean var beta gamma eps =
  map (fun r => map (fun c =>
      (nth c r 0 - nth c mean 0) / sqrt (nth c var 0 + eps) *
        match gamma with Some g => nth c g 0 | None => 1 end +
      match beta with Some b => nth c b 0 | None => 0 end) (seq 0 (length r))) rows.
Proof.
  unfold batch_normalization. apply map_ext. intros r. apply map_ext. intros c.
  destruct gamma, beta; unfold Rdiv; ring.
Qed.

Lemma ema_update_spec shadow value c :
  (c < length shadow)%nat ->
  nth c (ema_update shadow value) 0 = 9 / 10 * nth c shadow 0 + 1 / 10 * nth c value 0.
Proof.
  intros Hc. unfold ema_update. rewrite nth_map_seq by exact Hc. unfold ema_decay. field.
Qed.

Lemma ema_update_length shadow value : length (ema_update shadow value) = length shadow.
Proof. unfold ema_update. rewrite length_map, length_seq. reflexivity. Qed.

Lemma sumR_nonneg_zero (l : list R) :
  Forall (fun v => 0 <= v) l -> sumR l = 0 -> Forall (fun v => v = 0) l.
Proof.
  induction l as [|a l IH]; intros Hpos Hs; [constructor|].
  inversion Hpos as [|? ? Ha Hl]; subst. simpl in Hs.
  assert (0 <= sumR l).
  { clear - Hl. induction l as [|b l IH]; simpl; [lra|].
    inversion Hl; subst. specialize (IH H2). lra. }
  constructor; [lra|]. apply IH; auto. lra.
Qed.

(** A zero (biased) variance means every entry equals the mean. *)
Lemma zero_variance_const (ex : vec) :
  mean_list (map (fun v => (v - mean_list ex) ^ 2) ex) = 0 ->
  forall p, (p < length ex)%nat -> nth p ex 0 = mean_list ex.
Proof.
  intros Hv p Hp.
  assert (Hlen : 0 < INR (length (map (fun v => (v - mean_list ex) ^ 2) ex))).
  { rewrite length_map. apply lt_0_INR. lia. }
  unfold mean_list at 1 in Hv.
  assert (Hs : sumR (map (fun v => (v - mean_list ex) ^ 2) ex) = 0).
  { apply Rmult_eq_reg_r with (r := / INR (length (map (fun v => (v - mean_list ex) ^ 2) ex))).
    - unfold Rdiv in Hv. rewrite Hv. ring.
    - apply Rgt_not_eq, Rinv_0_lt_compat. exact Hlen. }
  apply sumR_nonneg_zero in Hs.
  - rewrite Forall_forall in Hs.
    assert (Hin : In ((nth p ex 0 - mean_list ex) ^ 2)
                     (map (fun v => (v - mean_list ex) ^ 2) ex)).
    { apply (in_map (fun v => (v - mean_list ex) ^ 2)). apply nth_In. exact Hp. }
    specialize (Hs _ Hin). simpl in Hs.
    assert (Hz : nth p ex 0 - mean_list ex = 0).
    { destruct (Req_dec (nth p ex 0 - mean_list ex) 0) as [E|E]; [exact E|].
      exfalso. apply E. apply Rsqr_0_uniq. unfold Rsqr. lra. }
    lra.
  - rewrite Forall_forall. intros y Hy. apply in_map_iff in Hy as (v & <- & _).
    apply pow2_ge_0.
Qed.

Lemma sumN_ext n f g : (forall k, (k < n)%nat -> f k = g k) -> sumN n f = sumN n g.
Proof.
  induction n as [|n IH]; intros H; simpl; [reflexivity|].
  rewrite IH by (intros; apply H; lia). rewrite H by lia. reflexivity.
Qed.

Lemma sumN_scale n f c : sumN n (fun k => f k * c) = sumN n f * c.
Proof. induction n as [|n IH]; simpl; [ring|]. rewrite IH. ring. Qed.

Lemma sumN_const n c : sumN n (fun _ => c) = INR n * c.
Proof. induction n as [|n IH]; cbn [sumN]; [simpl; ring|]. rewrite IH, S_INR. ring. Qed.

Lemma spec_box2_ext H W kh kw area f g i j :
  (forall i j, f i j = g i j) -> spec_box2 H W kh kw area f i j = spec_box2 H W kh kw area g i j.
Proof.
  intros Hfg. unfold spec_box2. f_equal. apply sumN_ext; intros a _.
  apply sumN_ext; intros d _. unfold spec_pad2. rewrite Hfg. reflexivity.
Qed.

Lemma div_norm_2d_pointwise x hs ws hp wp gamma beta eps :
  let out := div_norm_2d x (hs, ws) (hp, wp) gamma beta eps in
  let sp := div_norm_2d_spec x (hs, ws) (hp, wp) gamma beta eps in
  (forall b i j c, t4_at (fst out) b i j c = fst sp b i j c) /\
  (forall b i j o, t4_at (snd out) b i j o = snd sp b i j).
Proof.
  cbv zeta. unfold div_norm_2d, div_norm_2d_spec, div_norm_2d_kernels. cbn [fst snd].
  assert (Hbox : forall (t : tensor4) b i j o kh kw area,
    t4_c t = 1%nat ->
    t4_at (conv2d_same t (ones_filter2d kh kw area)) b i j o =
    spec_box2 (t4_h t) (t4_w t) kh kw area (fun i j => t4_at t b i j 0) i j).
  { intros t b i j o kh kw area Hc. unfold conv2d_same, spec_box2, ones_filter2d; cbn.
    rewrite Rmult_comm, <- sumN_scale. apply sumN_ext; intros a _.
    rewrite <- sumN_scale. apply sumN_ext; intros d _. cbn.
    unfold get_pad4, spec_pad2. destruct (_ && _)%bool; ring. }
  split.
  - intros b i j c. unfold apply_gamma_beta4, spec_scale_shift.
    assert (Hr : forall b i j c,
      t4_at (sub_c4 x (conv2d_same (reduce_mean_c4 x) (ones_filter2d hs ws (INR (hs * ws))))) b i j c =
      t4_at x b i j c - spec_box2 (t4_h x) (t4_w x) hs ws (INR (hs * ws))
                          (fun i j => spec_chan_mean (t4_c x) (t4_at x b i j)) i j).
    { intros. cbn [sub_c4 t4_at]. rewrite Hbox by reflexivity. reflexivity. }
    assert (Hd : t4_at (div_c4 (sub_c4 x (conv2d_same (reduce_mean_c4 x) (ones_filter2d hs ws (INR (hs * ws)))))
              (sqrt_eps4 (conv2d_same (reduce_mean_c4 (square4 (sub_c4 x (conv2d_same (reduce_mean_c4 x) (ones_filter2d hs ws (INR (hs * ws)))))))
                 (ones_filter2d hp wp (INR (hs * ws)))) (eps_or_default eps))) b i j c =
      (t4_at x b i j c - spec_box2 (t4_h x) (t4_w x) hs ws (INR (hs * ws))
                          (fun i j => spec_chan_mean (t4_c x) (t4_at x b i j)) i j) /
      sqrt (spec_box2 (t4_h x) (t4_w x) hp wp (INR (hs * ws))
        (fun i j => spec_chan_mean (t4_c x) (fun c => (t4_at x b i j c -
           spec_box2 (t4_h x) (t4_w x) hs ws (INR (hs * ws))
             (fun i j => spec_chan_mean (t4_c x) (t4_at x b i j)) i j) ^ 2)) i j + eps_or_default eps)).
    { cbn [div_c4 t4_at]. rewrite Hr. f_equal. cbn [sqrt_eps4 t4_at]. f_equal. f_equal.
      rewrite Hbox by reflexivity. apply spec_box2_ext. intros i' j'.
      cbn [reduce_mean_c4 square4 t4_at t4_c t4_h t4_w sub_c4]. unfold spec_chan_mean.
      f_equal. apply sumN_ext. intros k _. rewrite <- Hr. reflexivity. }
    destruct gamma, beta; cbn [apply_gamma_beta4 t4_at]; rewrite Hd; reflexivity.
  - intros b i j o. rewrite Hbox by reflexivity. reflexivity.
Qed.

Lemma spec_box1_ext D k len f g i :
  (forall i, f i = g i) -> spec_box1 D k len f i = spec_box1 D k len g i.
Proof.
  intros Hfg. unfold spec_box1. f_equal. apply sumN_ext; intros a _.
  unfold spec_pad1. rewrite Hfg. reflexivity.
Qed.

Lemma div_norm_1d_pointwise x ws wp gamma beta eps :
  let out := div_norm_1d x ws wp gamma beta eps in
  let sp := div_norm_1d_spec x ws wp gamma beta eps in
  (forall b i, t2_at (fst out) b i = fst sp b i) /\
  (forall b i, t2_at (snd out) b i = snd sp b i).
Proof.
  cbv zeta. unfold div_norm_1d, div_norm_1d_spec, div_norm_1d_kernels. cbn [fst snd].
  assert (Hbox : forall (t : tensor3) b i o k len,
    t3_c t = 1%nat ->
    t3_at (conv1d_same t (ones_filter1d k len)) b i o =
    spec_box1 (t3_d t) k len (fun i => t3_at t b i 0) i).
  { intros t b i o k len Hc. unfold conv1d_same, spec_box1, ones_filter1d; cbn.
    rewrite Rmult_comm, <- sumN_scale. apply sumN_ext; intros a _. cbn.
    unfold get_pad3, spec_pad1. destruct (in_range _ _); ring. }
  split.
  - intros b i.
    assert (Hd : t3_at (zip3 (fun n v => n / sqrt (eps_or_default eps + v))
          (zip3 Rminus (expand_dims2 x) (conv1d_same (expand_dims2 x) (ones_filter1d ws (INR ws))))
          (conv1d_same (map3 (fun v => v ^ 2)
             (zip3 Rminus (expand_dims2 x) (conv1d_same (expand_dims2 x) (ones_filter1d ws (INR ws)))))
             (ones_filter1d wp (INR wp)))) b i 0 =
        (t2_at x b i - spec_box1 (t2_d x) ws (INR ws) (t2_at x b) i) /
        sqrt (spec_box1 (t2_d x) wp (INR wp)
          (fun i => (t2_at x b i - spec_box1 (t2_d x) ws (INR ws) (t2_at x b) i) ^ 2) i
          + eps_or_default eps)).
    { cbn [zip3 t3_at]. rewrite Hbox by reflexivity. rewrite Hbox by reflexivity.
      cbn [expand_dims2 t3_at t3_d map3 zip3]. f_equal. rewrite Rplus_comm. f_equal. f_equal.
      apply spec_box1_ext. intros i'. rewrite Hbox by reflexivity. reflexivity. }
    destruct gamma, beta; cbn [apply_gamma_beta2 squeeze2 t2_at]; rewrite Hd; reflexivity.
  - intros b i. cbn [squeeze2 t2_at]. rewrite Hbox by reflexivity. reflexivity.
Qed.

Lemma spec_box2_row D w area f j :
  spec_box2 1 D 1 w area f 0 j = spec_box1 D w area (f 0%Z) j.
Proof.
  unfold spec_box2, spec_box1. cbn [sumN]. f_equal. rewrite Rplus_0_l.
  apply sumN_ext; intros d _. unfold spec_pad2, spec_pad1. reflexivity.
Qed.

Lemma spec_chan_mean_1 f : spec_chan_mean 1 f = f 0%Z.
Proof. unfold spec_chan_mean. simpl. field. Qed.

Lemma div_norm_1d_as_2d x w eps :
  (forall b j, t4_at (fst (div_norm_2d (as_image x) (1%nat, w) (1%nat, w) None None eps)) b 0 j 0 =
               t2_at (fst (div_norm_1d x w w None None eps)) b j) /\
  (forall b j, t4_at (snd (div_norm_2d (as_image x) (1%nat, w) (1%nat, w) None None eps)) b 0 j 0 =
               t2_at (snd (div_norm_1d x w w None None eps)) b j).
Proof.
  destruct (div_norm_2d_pointwise (as_image x) 1 w 1 w None None eps) as [H2o H2m].
  destruct (div_norm_1d_pointwise x w w None None eps) as [H1o H1m].
  cbv zeta in *.
  assert (Hm : forall b j, snd (div_norm_2d_spec (as_image x) (1%nat, w) (1%nat, w) None None eps) b 0%Z j =
                           snd (div_norm_1d_spec x w w None None eps) b j).
  { intros b j. unfold div_norm_2d_spec, div_norm_1d_spec. cbn [snd as_image t4_h t4_w t4_c t4_at].
    rewrite Nat.mul_1_l, spec_box2_row. apply spec_box1_ext. intros i. apply spec_chan_mean_1. }
  split; intros b j.
  - rewrite H2o, H1o. unfold div_norm_2d_spec, div_norm_1d_spec.
    cbn [fst as_image t4_h t4_w t4_c t4_at]. unfold spec_scale_shift.
    rewrite Nat.mul_1_l, !spec_box2_row.
    assert (Hmean : forall j0, spec_box1 (t2_d x) w (INR w)
              (fun j1 => spec_chan_mean 1 (fun _ => t2_at x b j1)) j0 =
            spec_box1 (t2_d x) w (INR w) (t2_at x b) j0)
      by (intros; apply spec_box1_ext; intros; apply spec_chan_mean_1).
    rewrite Hmean. f_equal. f_equal. f_equal. apply spec_box1_ext. intros j0.
    rewrite spec_chan_mean_1, spec_box2_row, Hmean. reflexivity.
  - rewrite H2m, H1m. apply Hm.
Qed.

Lemma sumR_map_affine {A} (f : A -> R) a b l :
  sumR (map (fun r => a * f r + b) l) = a * sumR (map f l) + INR (length l) * b.
Proof.
  induction l as [|r l IH]; cbn [map sumR fold_right length]; [simpl; ring|]. rewrite S_INR. unfold sumR in *. cbn [fold_right]. rewrite IH. ring.
Qed.

Lemma nth_map_seq_len (f : nat -> R) n c d : (c < n)%nat -> nth c (map f (seq 0 n)) d = f c.
Proof.
  intros Hc. rewrite nth_indep with (d' := f 0%nat) by (rewrite length_map, length_seq; lia).
  rewrite map_nth, seq_nth by lia. reflexivity.
Qed.

Lemma mean_list_affine {A} (f : A -> R) a b l :
  l <> [] ->
  mean_list (map (fun r => a * f r + b) l) = a * mean_list (map f l) + b.
Proof.
  intros Hl. unfold mean_list. rewrite sumR_map_affine, !length_map.
  assert (0 < INR (length l)) by (apply lt_0_INR; destruct l; [congruence|simpl; lia]).
  field. lra.
Qed.

Lemma col_rows_map (g : vec -> nat -> R) x c :
  Forall (fun r => (c < length r)%nat) x ->
  col (map (fun r => map (g r) (seq 0 (length r))) x) c = map (fun r => g r c) x.
Proof.
  unfold col. rewrite map_map. intros H. apply map_ext_in. intros r Hr.
  rewrite Forall_forall in H. apply nth_map_seq_len. apply H, Hr.
Qed.

Lemma batch_norm_train_col rn vn x n_out gamma beta eps s c :
  Forall (fun r => (c < length r)%nat) x ->
  col (fst (fst (batch_norm rn vn x n_out true gamma beta eps s))) c =
  map (fun r => / sqrt (nth c (snd (moments_rows x n_out)) 0 + eps) *
                  match gamma with Some g => nth c g 0 | None => 1 end *
                  (nth c r 0 - nth c (fst (moments_rows x n_out)) 0) +
                match beta with Some b => nth c b 0 | None => 0 end) x.
Proof.
  intros Hlen. unfold batch_norm.
  destruct (moments_rows x n_out) as [bm bv] eqn:E. cbn [fst snd].
  rewrite batch_normalization_formula.
  rewrite (col_rows_map (fun r c => (nth c r 0 - nth c bm 0) / sqrt (nth c bv 0 + eps) *
        match gamma with Some g => nth c g 0 | None => 1 end +
        match beta with Some b => nth c b 0 | None => 0 end)) by exact Hlen.
  apply map_ext. intros r. unfold Rdiv. ring.
Qed.

Lemma moments_rows_nth x n_out c :
  (c < n_out)%nat ->
  nth c (fst (moments_rows x n_out)) 0 = mean_list (col x c) /\
  nth c (snd (moments_rows x n_out)) 0 =
    mean_list (map (fun v => (v - mean_list (col x c)) ^ 2) (col x c)).
Proof.
  intros Hc. unfold moments_rows. cbv zeta. cbn [fst snd]. unfold reduce_mean_rows.
  split.
  - apply nth_map_seq_len. exact Hc.
  - rewrite (nth_map_seq_len (fun c0 => mean_list (map (fun v => (v - nth c0
        (map (fun c1 => mean_list (col x c1)) (seq 0 n_out)) 0) ^ 2) (col x c0))) n_out c 0 Hc).
    rewrite (nth_map_seq_len (fun c0 => mean_list (col x c0)) n_out c 0 Hc). reflexivity.
Qed.

Lemma mean_list_nonneg (l : list R) : Forall (fun v => 0 <= v) l -> 0 <= mean_list l.
Proof.
  intros H. unfold mean_list. destruct l as [|a l]; [simpl; unfold Rdiv; rewrite Rmult_0_l; lra|].
  apply Rmult_le_pos.
  - clear -H. induction H; simpl; lra.
  - left. apply Rinv_0_lt_compat. apply lt_0_INR. simpl. lia.
Qed.

Lemma bcast_rows_col f rows v c :
  Forall (fun r => (c < length r)%nat) rows ->
  col (bcast_rows f rows v) c = map (fun r => f (nth c r 0) (nth c v 0)) rows.
Proof.
  intros H. unfold bcast_rows.
  apply (col_rows_map (fun r c => f (nth c r 0) (nth c v 0))). exact H.
Qed.

Lemma bcast_rows_len f rows v c :
  Forall (fun r => (c < length r)%nat) rows ->
  Forall (fun r => (c < length r)%nat) (bcast_rows f rows v).
Proof.
  intros H. unfold bcast_rows. rewrite Forall_map. eapply Forall_impl; [|exact H].
  intros r Hr. rewrite length_map, length_seq. exact Hr.
Qed.

Lemma col_map_after (f : R -> R) (rows : list vec) (c : nat) :
  map (fun r => f (nth c r 0)) rows = map f (col rows c).
Proof. unfold col. rewrite map_map. reflexivity. Qed.

Lemma apply_gamma_beta_rows_col rows gamma beta c :
  Forall (fun r => (c < length r)%nat) rows ->
  col (apply_gamma_beta_rows rows gamma beta) c =
  map (fun r => nth c r 0 * match gamma with Some g => nth c g 0 | None => 1 end +
                match beta with Some b => nth c b 0 | None => 0 end) rows.
Proof.
  intros H. unfold apply_gamma_beta_rows.
  destruct gamma as [g|], beta as [b|].
  - rewrite bcast_rows_col by (apply bcast_rows_len; exact H).
    rewrite (col_map_after (fun y => y + nth c b 0)), bcast_rows_col by exact H.
    rewrite map_map. reflexivity.
  - rewrite bcast_rows_col by exact H. apply map_ext. intros; ring.
  - rewrite bcast_rows_col by exact H. apply map_ext. intros; ring.
  - unfold col. apply map_ext. intros; ring.
Qed.

Lemma map_seq_nth_map (F : R -> R) (ex : vec) :
  map (fun p => F (nth p ex 0)) (seq 0 (length ex)) = map F ex.
Proof.
  apply nth_ext with (d := 0) (d' := 0).
  - rewrite !length_map, length_seq. reflexivity.
  - intros i Hi. rewrite length_map, length_seq in Hi.
    rewrite nth_map_seq_len by exact Hi.
    rewrite (nth_indep (map F ex) 0 (F 0)) by (rewrite length_map; exact Hi).
    rewrite map_nth. reflexivity.
Qed.

Lemma mean_list_shift (ex : vec) k :
  ex <> [] -> mean_list (map (fun v => v + k) ex) = mean_list ex + k.
Proof.
  intros H. rewrite (map_ext _ (fun v => 1 * v + k)) by (intros; ring).
  rewrite (mean_list_affine (fun v => v) 1 k) by exact H. rewrite map_id. ring.
Qed.

Lemma sumN_indicator (P : nat -> bool) k n :
  sumN n (fun a => if P a then k else 0) = k * INR (length (filter P (seq 0 n))).
Proof.
  induction n as [|n IH]; [simpl; ring|].
  rewrite seq_S, filter_app, length_app. cbn [sumN]. rewrite IH, plus_INR.
  simpl. destruct (P n); simpl; ring.
Qed.

Lemma filter_all_true {A} (P : A -> bool) l :
  (forall a, In a l -> P a = true) -> filter P l = l.
Proof.
  induction l as [|a l IH]; intros H; simpl; [reflexivity|].
  rewrite H by (left; reflexivity). f_equal. apply IH. intros; apply H; right; assumption.
Qed.

Lemma spec_box2_unit H W area f i j :
  in_range i H && in_range j W = true ->
  spec_box2 H W 1 1 area f i j = 1 / area * f i j.
Proof.
  intros Hin. unfold spec_box2, spec_pad2. cbn [sumN].
  replace (i + Z.of_nat 0 - Z.of_nat ((1 - 1) / 2))%Z with i by (simpl; lia).
  replace (j + Z.of_nat 0 - Z.of_nat ((1 - 1) / 2))%Z with j by (simpl; lia).
  rewrite Hin. ring.
Qed.

Lemma spec_box2_unit1 H W f i j :
  in_range i H && in_range j W = true -> spec_box2 H W 1 1 (INR (1 * 1)) f i j = f i j.
Proof.
  intros Hin. rewrite spec_box2_unit by exact Hin. simpl INR. unfold Rdiv. rewrite Rinv_1. ring.
Qed.

End NumLemmas.

(* ================================================================== *)
(** * The claims *)

Section Claims.
Local Open Scope R_scope.

(** C1 (as stated, refuted).  The claim: a training step updates [ema_mean]
    by [ema_mean <- 0.9 * ema_mean + 0.1 * batch_mean].  With [ema_mean = [1]],
    a fresh shadow [[0]] and the batch [x = [[0]]] (batch mean [0]) the
    recurrence gives [[0.9]], but [ema_mean] becomes [[0]] whichever shadow
    value the assignment reads. *)
Lemma batch_norm_ema_recurrence_counterexample :
  ema_mean (snd (batch_norm true true [[0]] 1 true None None (1 / 1000)
                   (mkBnState [1] [1] [0] [0]))) <> [9 / 10 * 1 + 1 / 10 * 0] /\
  ema_mean (snd (batch_norm false false [[0]] 1 true None None (1 / 1000)
                   (mkBnState [1] [1] [0] [0]))) <> [9 / 10 * 1 + 1 / 10 * 0].
Proof.
  unfold batch_norm, moments_rows, reduce_mean_rows, ema_update, mean_list, col, ema_decay.
  simpl. split; intros H; injection H; intros E.
  - rewrite Rdiv_1_r in E. lra.
  - lra.
Qed.

(** C1 (amended).  A training step of [batch_norm], the shadow update
    running before the copy into [ema_mean] / [ema_var] (update, then use):
    the output is [(x - batch_mean) / sqrt(batch_var + eps) * gamma + beta]
    (gamma read as 1 and beta as 0 when absent) and the returned mean is the
    batch mean; the shadow averages of the [ExponentialMovingAverage] follow
    [s <- 0.9 * s + 0.1 * batch_stat] with the same decay at every step; and
    [ema_mean] / [ema_var] are overwritten with the updated shadow values, so
    their previous values never enter the result. *)
Theorem batch_norm_train_step x n_out gamma beta eps s :
  let r := batch_norm true true x n_out true gamma beta eps s in
  let batch_mean := fst (moments_rows x n_out) in
  let batch_var := snd (moments_rows x n_out) in
  snd (fst r) = batch_mean /\
  fst (fst r) =
    map (fun row => map (fun c =>
      (nth c row 0 - nth c batch_mean 0) / sqrt (nth c batch_var 0 + eps) *
        match gamma with Some g => nth c g 0 | None => 1 end +
      match beta with Some b => nth c b 0 | None => 0 end) (seq 0 (length row))) x /\
  length (shadow_mean (snd r)) = length (shadow_mean s) /\
  length (shadow_var (snd r)) = length (shadow_var s) /\
  (forall c, (c < length (shadow_mean s))%nat ->
     nth c (shadow_mean (snd r)) 0 = 9 / 10 * nth c (shadow_mean s) 0 + 1 / 10 * nth c batch_mean 0) /\
  (forall c, (c < length (shadow_var s))%nat ->
     nth c (shadow_var (snd r)) 0 = 9 / 10 * nth c (shadow_var s) 0 + 1 / 10 * nth c batch_var 0) /\
  ema_mean (snd r) = shadow_mean (snd r) /\
  ema_var (snd r) = shadow_var (snd r) /\
  (forall em ev, batch_norm true true x n_out true gamma beta eps
                   (mkBnState em ev (shadow_mean s) (shadow_var s)) = r).
Proof.
  unfold batch_norm. destruct (moments_rows x n_out) as [bm bv] eqn:E. simpl.
  repeat split.
  - apply batch_normalization_formula.
  - apply ema_update_length.
  - apply ema_update_length.
  - intros c Hc. apply ema_update_spec. exact Hc.
  - intros c Hc. apply ema_update_spec. exact Hc.
Qed.

(** C4.  In evaluation mode [batch_norm] normalises with the stored
    [ema_mean] / [ema_var], returns [ema_mean] as the mean, leaves every
    persistent variable unchanged, and a repeated call on the same input
    (under any schedule) gives the same result. *)
Theorem batch_norm_eval_frozen rm rv rm' rv' x n_out gamma beta eps s :
  let r := batch_norm rm rv x n_out false gamma beta eps s in
  snd r = s /\
  snd (fst r) = ema_mean s /\
  fst (fst r) =
    map (fun row => map (fun c =>
      (nth c row 0 - nth c (ema_mean s) 0) / sqrt (nth c (ema_var s) 0 + eps) *
        match gamma with Some g => nth c g 0 | None => 1 end +
      match beta with Some b => nth c b 0 | None => 0 end) (seq 0 (length row))) x /\
  batch_norm rm' rv' x n_out false gamma beta eps (snd r) = r.
Proof.
  simpl. repeat split. apply batch_normalization_formula.
Qed.

(** C6.  [batch_norm_mean_only], in both modes, outputs
    [(x - mean) * gamma + beta] entry by entry, with the factor [gamma] left
    out (read as 1) when absent and the term [beta] left out (read as 0)
    when absent, independently of each other; [mean] is the batch mean in
    training and the stored [ema_mean] in evaluation.  No variance and no
    division enter the output. *)
Theorem batch_norm_mean_only_output rm x n_out is_training gamma beta s :
  let r := batch_norm_mean_only rm x n_out is_training gamma beta s in
  snd (fst r) = (if is_training then reduce_mean_rows x n_out else ms_ema_mean s) /\
  fst (fst r) =
    map (fun row => map (fun c =>
      (nth c row 0 - nth c (snd (fst r)) 0) *
        match gamma with Some g => nth c g 0 | None => 1 end +
      match beta with Some b => nth c b 0 | None => 0 end) (seq 0 (length row))) x.
Proof.
  assert (Hgb : forall m, apply_gamma_beta_rows (bcast_rows Rminus x m) gamma beta =
    map (fun row => map (fun c =>
      (nth c row 0 - nth c m 0) *
        match gamma with Some g => nth c g 0 | None => 1 end +
      match beta with Some b => nth c b 0 | None => 0 end) (seq 0 (length row))) x).
  { intros m. unfold apply_gamma_beta_rows.
    destruct gamma as [g|], beta as [b|]; unfold bcast_rows; rewrite ?map_map;
      apply map_ext; intros row; rewrite ?length_map, ?length_seq;
      apply map_seq_ext; intros c Hc;
      rewrite ?nth_map_seq by (rewrite ?length_map, ?length_seq; lia); ring. }
  unfold batch_norm_mean_only. destruct is_training; simpl; split; auto.
Qed.

(** C9.  [layer_norm] is computed example by example from the example alone
    (no persistent variable is involved); on an example whose variance over
    the reduction axes is zero, with [beta] zero (or absent) and any [gamma]
    (in particular [gamma = 1]), the output is exactly zero, and the
    denominator [sqrt(eps + var)] is positive for [eps > 0]. *)
Theorem layer_norm_zero_variance (x : list vec) gamma beta eps i ex
  (Heps : 0 < eps)
  (Hex : nth_error x i = Some ex)
  (Hvar : mean_list (map (fun v => (v - mean_list ex) ^ 2) ex) = 0)
  (Hbeta : match beta with Some b => Forall (fun v => v = 0) b | None => True end) :
  nth_error (layer_norm x gamma beta eps) i = Some (layer_norm_example gamma beta eps ex) /\
  layer_norm_example gamma beta eps ex = repeat 0 (length ex) /\
  0 < sqrt (eps + mean_list (map (fun v => (v - mean_list ex) ^ 2) ex)).
Proof.
  split; [unfold layer_norm; rewrite nth_error_map, Hex; reflexivity|].
  split; [|apply sqrt_lt_R0; lra].
  unfold layer_norm_example. rewrite Hvar.
  rewrite <- (length_seq (length ex) 0) at 2. rewrite <- map_const.
  apply map_seq_ext. intros p Hp.
  rewrite (zero_variance_const ex Hvar p Hp), Rminus_diag. unfold Rdiv. rewrite Rmult_0_l.
  assert (Hb0 : forall b, Forall (fun v => v = 0) b -> bcast_last b p = 0).
  { intros b Hb. unfold bcast_last.
    destruct (Nat.lt_ge_cases (p mod length b) (length b)) as [Hl|Hl].
    - rewrite Forall_forall in Hb. apply Hb, nth_In, Hl.
    - apply nth_overflow, Hl. }
  destruct gamma, beta; rewrite ?Rmult_0_l, ?Rplus_0_l; auto.
Qed.

Lemma layer_norm_zero_variance_witness :
  nth_error (layer_norm [[2; 2]] (Some [1]) (Some [0]) (1 / 1000)) 0 =
    Some (layer_norm_example (Some [1]) (Some [0]) (1 / 1000) [2; 2]) /\
  layer_norm_example (Some [1]) (Some [0]) (1 / 1000) [2; 2] = repeat 0 (length [2; 2]) /\
  0 < sqrt (1 / 1000 + mean_list (map (fun v => (v - mean_list [2; 2]) ^ 2) [2; 2])).
Proof.
  apply (layer_norm_zero_variance [[2; 2]] (Some [1]) (Some [0]) (1 / 1000) 0 [2; 2]).
  - lra.
  - reflexivity.
  - unfold mean_list. simpl. field.
  - repeat constructor.
Defined.

(** C3 (defect).  [init_param] defaults to [None], and the branches for
    ["truncated_normal"], ["uniform_scaling"] and ["constant"] test
    ["mean" not in init_param] (etc.) before falling back to their documented
    defaults, so with the default [init_param] these three recognised
    methods raise [TypeError] instead of returning a variable.  An
    unrecognised method raises [ValueError] (the invalid-argument error). *)
Theorem weight_variable_default_init_param shape dt wd name tr st :
  weight_variable shape (Some "truncated_normal") dt None wd name tr st =
    Raise (TypeError "argument of type 'NoneType' is not iterable") /\
  weight_variable shape (Some "uniform_scaling") dt None wd name tr st =
    Raise (TypeError "argument of type 'NoneType' is not iterable") /\
  weight_variable shape (Some "constant") dt None wd name tr st =
    Raise (TypeError "argument of type 'NoneType' is not iterable") /\
  (forall m ip, ~ In m ["truncated_normal"; "uniform_scaling"; "constant"; "xavier"] ->
     weight_variable shape (Some m) dt ip wd name tr st =
       Raise (ValueError "Non supported initialization method!")).
Proof.
  assert (Hinit : forall m ip, ~ In m ["truncated_normal"; "uniform_scaling"; "constant"; "xavier"] ->
            choose_initializer (Some m) dt ip = raise (ValueError "Non supported initialization method!")).
  { intros m ip Hm. simpl in Hm. unfold choose_initializer.
    destruct (String.eqb_spec m "truncated_normal"); [subst; tauto|].
    destruct (String.eqb_spec m "uniform_scaling"); [subst; tauto|].
    destruct (String.eqb_spec m "constant"); [subst; tauto|].
    destruct (String.eqb_spec m "xavier"); [subst; tauto|].
    reflexivity. }
  unfold weight_variable, bind.
  destruct (dtype_eqb dt float32); unfold ret, log;
    (split; [reflexivity|split; [reflexivity|split; [reflexivity|]]]);
    intros m ip Hm; rewrite (Hinit m ip Hm); reflexivity.
Qed.

(** C5.  In [weight_variable], a positive [wd] attaches the penalty
    [0.5 * wd * sum(p^2)] to the created variable; an absent or non-positive
    [wd] attaches none and logs the warning "No weight decay"; and [wd] never
    makes the call raise (it raises exactly when it would with [wd = None]). *)
Theorem weight_variable_weight_decay shape im dt ip wd name tr st :
  (forall e, weight_variable shape im dt ip wd name tr st = Raise e <->
             weight_variable shape im dt ip None name tr st = Raise e) /\
  (forall v st', weight_variable shape im dt ip wd name tr st = Ok v st' ->
     In v (st_vars st') /\
     (forall w, wd = Some w -> w > 0 ->
        exists f, var_reg v = Some f /\ forall p, f p = 1 / 2 * w * sum_sq p) /\
     ((forall w, wd = Some w -> w <= 0) ->
        var_reg v = None /\
        exists pre, st_log st' = pre ++ st_log st /\ In (Warning, MsgNoWeightDecay) pre)).
Proof.
  split.
  - intros e. split; apply weight_variable_raise_wd.
  - intros v st' H.
    apply weight_variable_ok in H as (Hv & _ & _ & _ & (pre & Hl & Hw) & Hpos & Hnone).
    rewrite Hv. split; [left; reflexivity|]. split.
    + intros w Hw' Hgt. destruct (Hpos w Hw' Hgt) as (f & Hf & Hfp).
      exists f. split; [exact Hf|]. intros p. rewrite Hfp. unfold l2_loss. field.
    + intros Hle. split; [apply Hnone, Hle|]. exists pre. auto.
Qed.

(** C8.  Every dropout op [mlp] builds sits in the scope of a layer whose
    dropout flag is set, one per such layer in layer order, with keep
    probability 0.5 when [is_training] and 1.0 otherwise; [tf.nn.dropout]
    with keep probability 1.0 returns its input for every random sample,
    and with 0.5 zeroes exactly the entries whose sample is below 0.5. *)
Theorem mlp_dropout_keep_prob dims is_training act_fn dt add_bias wd init_std init_method
    dropout trainable x scope st h st'
  (Hok : mlp dims is_training act_fn dt add_bias wd init_std init_method dropout trainable
           x scope st = Ok h st') :
  dropout_sites h = dropout_sites x ++
    flat_map (fun j =>
      if nth j (match dropout with Some l => l | None => [] end) false
      then [((st_scope st ++ [scope]) ++ [layer_scope j],
             if is_training then 1 / 2 else 1)] else [])
      (seq 0 (length dims - 1)) /\
  (forall u v, 0 <= u < 1 -> dropout_apply 1 u v = v) /\
  (forall u v, 0 <= u < 1 ->
     dropout_apply (1 / 2) u v = if Rlt_dec u (1 / 2) then 0 else 2 * v).
Proof.
  apply mlp_ok in Hok as (_ & _ & Hd). split; [exact Hd|]. split.
  - intros u v Hu. unfold dropout_apply. rewrite Int_part_keep_one by exact Hu. simpl. field.
  - intros u v Hu. unfold dropout_apply. rewrite Int_part_keep_half by exact Hu.
    destruct (Rlt_dec u (1 / 2)); simpl; field.
Qed.

Lemma mlp_dropout_keep_prob_witness :
  match mlp [4; 5; 2]%nat false None float32 true None (Some [1; 1]) None (Some [true; false])
          true Input "mlp" (mkStore [] [] []) with
  | Ok h st' =>
      dropout_sites h = dropout_sites Input ++
        flat_map (fun j =>
          if nth j [true; false] false
          then [(([] ++ ["mlp"]) ++ [layer_scope j], if false then 1 / 2 else 1)] else [])
          (seq 0 (length [4; 5; 2]%nat - 1)) /\
      (forall u v, 0 <= u < 1 -> dropout_apply 1 u v = v) /\
      (forall u v, 0 <= u < 1 ->
         dropout_apply (1 / 2) u v = if Rlt_dec u (1 / 2) then 0 else 2 * v)
  | Raise _ => False
  end.
Proof.
  destruct (mlp [4; 5; 2]%nat false None float32 true None (Some [1; 1]) None
              (Some [true; false]) true Input "mlp" (mkStore [] [] [])) as [h st'|e] eqn:E.
  - exact (mlp_dropout_keep_prob [4; 5; 2]%nat false None float32 true None (Some [1; 1]) None
             (Some [true; false]) true Input "mlp" (mkStore [] [] []) h st' E).
  - vm_compute in E. discriminate.
Defined.

(** C10.  Every variable [cnn] or [mlp] creates satisfies
    [penalty_only_on_weights wd]: a bias ["b"] never carries a penalty
    (it is declared without [wd]), any penalty sits on a weight ["w"], and
    with a positive [wd] every weight carries one. *)
Theorem bias_never_regularized :
  (forall filter_size strides pool_fn pool_size pool_strides act_fn dt add_bias wd init_std
          init_method trainable x scope st h st',
     cnn filter_size strides pool_fn pool_size pool_strides act_fn dt add_bias wd init_std
       init_method trainable x scope st = Ok h st' ->
     exists new, st_vars st' = new ++ st_vars st /\ Forall (penalty_only_on_weights wd) new) /\
  (forall dims is_training act_fn dt add_bias wd init_std init_method dropout trainable
          x scope st h st',
     mlp dims is_training act_fn dt add_bias wd init_std init_method dropout trainable
       x scope st = Ok h st' ->
     exists new, st_vars st' = new ++ st_vars st /\ Forall (penalty_only_on_weights wd) new).
Proof.
  split.
  - intros until st'. unfold cnn. intros H.
    apply variable_scope_ok in H as (st1 & H & ->).
    apply cnn_layers_ok in H as (_ & Hn). exact Hn.
  - intros until st'. intros H. apply mlp_ok in H as (_ & Hn & _). exact Hn.
Qed.

(** C2.  [div_norm_2d] builds two uniform [kh x kw x 1 x 1] kernels from
    [sum_window] and [sup_window] whose every weight is [1 / (H_sum * W_sum)]
    (so the sum kernel adds up to 1 and the suppression kernel to
    [H_sup * W_sup / (H_sum * W_sum)]); an omitted [eps] is 1; and its output
    and [x_mean] are, index by index, those of [div_norm_2d_spec]: channel
    mean, sum-window box average, residual, squared residual's channel mean
    averaged over the suppression window, division by [sqrt (. + eps)],
    then [gamma] and [beta] when given. *)
Theorem div_norm_2d_steps x hs ws hp wp gamma beta eps :
  let ker := div_norm_2d_kernels (hs, ws) (hp, wp) in
  let out := div_norm_2d x (hs, ws) (hp, wp) gamma beta eps in
  let sp := div_norm_2d_spec x (hs, ws) (hp, wp) gamma beta eps in
  (f2_h (fst ker), f2_w (fst ker), f2_in (fst ker), f2_out (fst ker)) = (hs, ws, 1%nat, 1%nat) /\
  (f2_h (snd ker), f2_w (snd ker), f2_in (snd ker), f2_out (snd ker)) = (hp, wp, 1%nat, 1%nat) /\
  (forall a d ci o, f2_at (fst ker) a d ci o = 1 / INR (hs * ws)) /\
  (forall a d ci o, f2_at (snd ker) a d ci o = 1 / INR (hs * ws)) /\
  ((hs * ws <> 0)%nat -> sumN hs (fun a => sumN ws (fun d => f2_at (fst ker) a d 0 0)) = 1) /\
  sumN hp (fun a => sumN wp (fun d => f2_at (snd ker) a d 0 0)) = INR (hp * wp) / INR (hs * ws) /\
  eps_or_default None = 1 /\
  (t4_b (fst out), t4_h (fst out), t4_w (fst out), t4_c (fst out)) = (t4_b x, t4_h x, t4_w x, t4_c x) /\
  (t4_b (snd out), t4_h (snd out), t4_w (snd out), t4_c (snd out)) = (t4_b x, t4_h x, t4_w x, 1%nat) /\
  (forall b i j c, t4_at (fst out) b i j c = fst sp b i j c) /\
  (forall b i j o, t4_at (snd out) b i j o = snd sp b i j).
Proof.
  pose proof (div_norm_2d_pointwise x hs ws hp wp gamma beta eps) as [Ho Hm].
  cbv zeta in *. unfold div_norm_2d_kernels. cbn [fst snd].
  split; [reflexivity|]. split; [reflexivity|]. split; [reflexivity|]. split; [reflexivity|].
  split.
  { intros Hnz. cbn [ones_filter2d f2_at].
    erewrite sumN_ext; [|intros; apply sumN_const]. rewrite sumN_const, mult_INR.
    assert (hs <> 0%nat) by (intros ->; apply Hnz; reflexivity).
    assert (ws <> 0%nat) by (intros ->; apply Hnz; lia).
    field. split; apply not_0_INR; assumption. }
  split.
  { cbn [ones_filter2d f2_at]. erewrite sumN_ext; [|intros; apply sumN_const].
    rewrite sumN_const, !mult_INR. unfold Rdiv. ring. }
  split; [reflexivity|].
  split; [unfold div_norm_2d; destruct gamma, beta; reflexivity|].
  split; [reflexivity|]. split; assumption.
Qed.

(** C7.  [div_norm_1d] builds [k x 1 x 1] kernels whose weights are
    [1 / sum_window] and [1 / sup_window] respectively (each adds up to 1);
    its output and mean are, index by index, those of [div_norm_1d_spec]
    (box average, residual, box average of the squared residual over the
    suppression window, division by [sqrt (. + eps)], [gamma], [beta]); and
    with equal windows it is [div_norm_2d] on the one-row, one-channel image
    of its input with windows [[1, w]]. *)
Theorem div_norm_1d_steps x ws wp gamma beta eps :
  let ker := div_norm_1d_kernels ws wp in
  let out := div_norm_1d x ws wp gamma beta eps in
  let sp := div_norm_1d_spec x ws wp gamma beta eps in
  (f1_w (fst ker), f1_in (fst ker), f1_out (fst ker)) = (ws, 1%nat, 1%nat) /\
  (f1_w (snd ker), f1_in (snd ker), f1_out (snd ker)) = (wp, 1%nat, 1%nat) /\
  (forall a ci o, f1_at (fst ker) a ci o = 1 / INR ws) /\
  (forall a ci o, f1_at (snd ker) a ci o = 1 / INR wp) /\
  ((ws <> 0)%nat -> sumN ws (fun a => f1_at (fst ker) a 0 0) = 1) /\
  ((wp <> 0)%nat -> sumN wp (fun a => f1_at (snd ker) a 0 0) = 1) /\
  (t2_b (fst out), t2_d (fst out)) = (t2_b x, t2_d x) /\
  (t2_b (snd out), t2_d (snd out)) = (t2_b x, t2_d x) /\
  (forall b i, t2_at (fst out) b i = fst sp b i) /\
  (forall b i, t2_at (snd out) b i = snd sp b i) /\
  (forall w e,
     (forall b j, t4_at (fst (div_norm_2d (as_image x) (1%nat, w) (1%nat, w) None None e)) b 0 j 0 =
                  t2_at (fst (div_norm_1d x w w None None e)) b j) /\
     (forall b j, t4_at (snd (div_norm_2d (as_image x) (1%nat, w) (1%nat, w) None None e)) b 0 j 0 =
                  t2_at (snd (div_norm_1d x w w None None e)) b j)).
Proof.
  pose proof (div_norm_1d_pointwise x ws wp gamma beta eps) as [Ho Hm].
  cbv zeta in *. unfold div_norm_1d_kernels. cbn [fst snd].
  assert (Hone : forall k, (k <> 0)%nat -> sumN k (fun _ => 1 / INR k) = 1).
  { intros k Hk. rewrite sumN_const. field. apply not_0_INR. assumption. }
  split; [reflexivity|]. split; [reflexivity|]. split; [reflexivity|]. split; [reflexivity|].
  split; [apply Hone|]. split; [apply Hone|].
  split; [unfold div_norm_1d; destruct gamma, beta; reflexivity|].
  split; [reflexivity|]. split; [assumption|]. split; [assumption|].
  intros w e. apply div_norm_1d_as_2d.
Qed.

End Claims.

(* ================================================================== *)
(** * Further properties of the construction code *)

Section ConstructionProps.

(** [weight_variable] never declares a second variable under a full name the
    store already holds: when [scope/name] exists, the call raises the
    [ValueError] of [tf.get_variable], unless the initializer choice raised
    first. *)
Theorem weight_variable_duplicate_name shape im dt ip wd name tr st v0 :
  In v0 (st_vars st) -> var_name v0 = st_scope st ++ [name] ->
  weight_variable shape im dt ip wd name tr st = Raise (ValueError "Variable already exists, disallowed.") \/
  (exists e, choose_initializer im dt ip st = Raise e /\ weight_variable shape im dt ip wd name tr st = Raise e).
Proof.
  destruct st as [vars sc lg]. intros Hin Hn. cbn [st_vars st_scope] in *.
  unfold weight_variable.
  destruct (choose_initializer_pure im dt ip) as [[i Hi]|[e He]].
  2: { right. exists e. split; [apply He|]. unfold bind.
       destruct (dtype_eqb dt float32); cbn; rewrite He; reflexivity. }
  left.
  set (st1 := mkStore vars sc ((if dtype_eqb dt float32 then [] else [(Warning, MsgNotFloat32 dt)]) ++ lg)).
  assert (E1 : (if dtype_eqb dt float32 then ret tt else log Warning (MsgNotFloat32 dt))
                 (mkStore vars sc lg) = Ok tt st1)
    by (unfold st1; destruct (dtype_eqb dt float32); reflexivity).
  unfold bind. rewrite E1, Hi. unfold log.
  destruct (choose_regularizer_ok wd (mkStore (st_vars st1) (st_scope st1)
              ((Info, MsgWeightShape shape) :: st_log st1))) as (reg & pre & Er).
  rewrite Er. unfold get_variable. cbn [st_vars st_scope st_log st1].
  replace (existsb _ vars) with true; [reflexivity|].
  symmetry. apply existsb_exists. exists v0. split; [exact Hin|rewrite Hn; apply name_eqb_refl].
Qed.

Lemma weight_variable_duplicate_name_witness :
  weight_variable [2%nat] None float32 None None "w" true
    (mkStore [mkVariable ["s"; "w"] [2%nat] ZerosInit None float32 true "/cpu:0"] ["s"] []) =
    Raise (ValueError "Variable already exists, disallowed.") \/
  (exists e, choose_initializer None float32 None
    (mkStore [mkVariable ["s"; "w"] [2%nat] ZerosInit None float32 true "/cpu:0"] ["s"] []) = Raise e /\
   weight_variable [2%nat] None float32 None None "w" true
    (mkStore [mkVariable ["s"; "w"] [2%nat] ZerosInit None float32 true "/cpu:0"] ["s"] []) = Raise e).
Proof.
  apply (weight_variable_duplicate_name [2%nat] None float32 None None "w" true
    (mkStore [mkVariable ["s"; "w"] [2%nat] ZerosInit None float32 true "/cpu:0"] ["s"] [])
    (mkVariable ["s"; "w"] [2%nat] ZerosInit None float32 true "/cpu:0")).
  - left. reflexivity.
  - reflexivity.
Defined.

(** The initializer of a variable [weight_variable] declares with a dict
    [init_param]: each parameter is read from the dict when the key is
    present and takes its default otherwise (mean 0, stddev 0.1, factor 1,
    val 0); [init_method = None] gives zeros and ["xavier"] ignores the dict. *)
Theorem weight_variable_initializer shape im dt d wd name tr st v st' :
  weight_variable shape im dt (Some d) wd name tr st = Ok v st' ->
  let get k def := match find (fun p => String.eqb (fst p) k) d with
                   | Some p => snd p | None => def end in
  var_init v =
    match im with
    | None => ZerosInit
    | Some m =>
        if String.eqb m "truncated_normal" then
          TruncatedNormalInit (get "mean" 0%R) (get "stddev" (1/10)%R) 1
        else if String.eqb m "uniform_scaling" then UniformUnitScalingInit (get "factor" 1%R) 1
        else if String.eqb m "constant" then ConstantInit (get "val" 0%R)
        else XavierInit false 1
    end.
Proof.
  intros H. apply weight_variable_spec in H as (Hi & _). cbv zeta.
  destruct im as [m|]; [|cbn in Hi; injection Hi as <-; reflexivity].
  unfold choose_initializer in Hi.
  cbv [bind py_contains py_getitem ret raise] in Hi. rewrite ?existsb_find in Hi.
  destruct (String.eqb m "truncated_normal"); [|destruct (String.eqb m "uniform_scaling");
    [|destruct (String.eqb m "constant"); [|destruct (String.eqb m "xavier")]]];
    repeat match goal with |- context [find ?f d] => destruct (find f d) end;
    cbn in Hi; first [injection Hi as <-; reflexivity | discriminate].
Qed.

Lemma weight_variable_initializer_witness :
  match weight_variable [3%nat] (Some "truncated_normal") float32 (Some [("stddev", 2%R)]) None
          "w" true (mkStore [] [] []) with
  | Ok v _ => var_init v = TruncatedNormalInit 0 2 1
  | Raise _ => False
  end.
Proof.
  destruct (weight_variable [3%nat] (Some "truncated_normal") float32 (Some [("stddev", 2%R)])
              None "w" true (mkStore [] [] [])) as [v st'|e] eqn:E.
  - exact (weight_variable_initializer [3%nat] (Some "truncated_normal") float32
             [("stddev", 2%R)] None "w" true (mkStore [] [] []) v st' E).
  - vm_compute in E. discriminate.
Defined.

(** [mlp] with fewer than two [dims] builds nothing and returns its input
    with the store unchanged; with at least one layer and the defaults
    [init_method = None], [init_std = None], it raises [TypeError] on
    [init_std[0]]. *)
Theorem mlp_edge_cases dims is_training act_fn dt add_bias wd init_std init_method dropout
    trainable x scope st :
  ((length dims <= 1)%nat ->
     mlp dims is_training act_fn dt add_bias wd init_std init_method dropout trainable
       x scope st = Ok x st) /\
  ((2 <= length dims)%nat -> init_method = None -> init_std = None ->
     mlp dims is_training act_fn dt add_bias wd init_std init_method dropout trainable
       x scope st = Raise (TypeError "'NoneType' object is not subscriptable")).
Proof.
  destruct st as [vars sc lg]. split.
  - intros Hl. unfold mlp. replace (length dims - 1)%nat with 0%nat by lia. reflexivity.
  - intros Hl -> ->. destruct dims as [|d0 [|d1 rest]]; simpl in Hl; [lia|lia|].
    reflexivity.
Qed.

(** The variables a successful [mlp] creates: for each layer [j], a weight
    [scope/layer_j/w] of shape [[dims[j], dims[j+1]]] and, with [add_bias], a
    bias [scope/layer_j/b] of shape [[dims[j+1]]], newest first, in front of
    the old variables; the scope stack is restored and variable names stay
    pairwise distinct. *)
Theorem mlp_variables dims is_training act_fn dt add_bias wd init_std init_method dropout
    trainable x scope st h st' :
  mlp dims is_training act_fn dt add_bias wd init_std init_method dropout trainable
    x scope st = Ok h st' ->
  let pre j := (st_scope st ++ [scope]) ++ [layer_scope j] in
  st_scope st' = st_scope st /\
  exists new, st_vars st' = new ++ st_vars st /\
    map (fun v => (var_name v, var_shape v)) new =
      flat_map (fun j =>
        (if add_bias then [(pre j ++ ["b"], [nth (S j) dims 0%nat])] else []) ++
        [(pre j ++ ["w"], [nth j dims 0%nat; nth (S j) dims 0%nat])])
        (rev (seq 0 (length dims - 1))) /\
    (NoDup (map var_name (st_vars st)) -> NoDup (map var_name (st_vars st'))).
Proof.
  unfold mlp. intros H. apply variable_scope_ok in H as (st1 & H & ->).
  apply mlp_layers_vars in H as (_ & n & Hv & Hm & Hd). cbn [st_scope st_vars] in *.
  split; [reflexivity|]. exists n. auto.
Qed.

Lemma mlp_variables_witness :
  match mlp [4; 5; 2]%nat true None float32 true None (Some [1; 1]%R) None None
          true Input "mlp" (mkStore [] [] []) with
  | Ok h st' =>
      st_scope st' = [] /\
      exists new, st_vars st' = new ++ [] /\
        map (fun v => (var_name v, var_shape v)) new =
          flat_map (fun j =>
            (if true then [((([] ++ ["mlp"]) ++ [layer_scope j]) ++ ["b"],
                            [nth (S j) [4; 5; 2]%nat 0%nat])] else []) ++
            [((([] ++ ["mlp"]) ++ [layer_scope j]) ++ ["w"],
              [nth j [4; 5; 2]%nat 0%nat; nth (S j) [4; 5; 2]%nat 0%nat])])
            (rev (seq 0 (length [4; 5; 2]%nat - 1))) /\
        (NoDup (map var_name []) -> NoDup (map var_name (st_vars st')))
  | Raise _ => False
  end.
Proof.
  destruct (mlp [4; 5; 2]%nat true None float32 true None (Some [1; 1]%R) None None
              true Input "mlp" (mkStore [] [] [])) as [h st'|e] eqn:E.
  - exact (mlp_variables [4; 5; 2]%nat true None float32 true None (Some [1; 1]%R) None None
             true Input "mlp" (mkStore [] [] []) h st' E).
  - vm_compute in E. discriminate.
Defined.

(** [cnn] with no filter builds nothing and returns its input with the
    store unchanged; with at least one layer and the defaults
    [init_method = None], [init_std = None], it raises [TypeError] on
    [init_std[0]]. *)
Theorem cnn_edge_cases filter_size strides pool_fn pool_size pool_strides act_fn dt add_bias wd
    init_std init_method trainable x scope st :
  (filter_size = [] ->
     cnn filter_size strides pool_fn pool_size pool_strides act_fn dt add_bias wd
       init_std init_method trainable x scope st = Ok x st) /\
  (filter_size <> [] -> init_method = None -> init_std = None ->
     cnn filter_size strides pool_fn pool_size pool_strides act_fn dt add_bias wd
       init_std init_method trainable x scope st =
       Raise (TypeError "'NoneType' object is not subscriptable")).
Proof.
  destruct st as [vars sc lg]. split.
  - intros ->. reflexivity.
  - intros Hf -> ->. destruct filter_size as [|f0 rest]; [congruence|]. reflexivity.
Qed.

(** The variables a successful [cnn] creates: for each layer [j], a weight
    [scope/layer_j/w] of shape [filter_size[j]] and, with [add_bias], a bias
    [scope/layer_j/b] of shape [[filter_size[j][3]]], newest first, in front
    of the old variables; the scope stack is restored and variable names stay
    pairwise distinct. *)
Theorem cnn_variables filter_size strides pool_fn pool_size pool_strides act_fn dt add_bias wd
    init_std init_method trainable x scope st h st' :
  cnn filter_size strides pool_fn pool_size pool_strides act_fn dt add_bias wd
    init_std init_method trainable x scope st = Ok h st' ->
  let pre j := (st_scope st ++ [scope]) ++ [layer_scope j] in
  st_scope st' = st_scope st /\
  exists new, st_vars st' = new ++ st_vars st /\
    map (fun v => (var_name v, var_shape v)) new =
      flat_map (fun j =>
        (if add_bias then [(pre j ++ ["b"], [nth 3 (nth j filter_size []) 0%nat])] else []) ++
        [(pre j ++ ["w"], nth j filter_size [])])
        (rev (seq 0 (length filter_size))) /\
    (NoDup (map var_name (st_vars st)) -> NoDup (map var_name (st_vars st'))).
Proof.
  unfold cnn. intros H. apply variable_scope_ok in H as (st1 & H & ->).
  apply cnn_layers_vars in H as (_ & n & Hv & Hm & Hd). cbn [st_scope st_vars] in *.
  split; [reflexivity|]. exists n. auto.
Qed.

Lemma cnn_variables_witness :
  match cnn [[3; 3; 1; 4]%nat] [[1; 1; 1; 1]%nat] [None] [[]] [[]] [None] float32 true None
          (Some [1%R]) None true Input "cnn" (mkStore [] [] []) with
  | Ok h st' =>
      st_scope st' = [] /\
      exists new, st_vars st' = new ++ [] /\
        map (fun v => (var_name v, var_shape v)) new =
          flat_map (fun j =>
            (if true then [((([] ++ ["cnn"]) ++ [layer_scope j]) ++ ["b"],
                            [nth 3 (nth j [[3; 3; 1; 4]%nat] []) 0%nat])] else []) ++
            [((([] ++ ["cnn"]) ++ [layer_scope j]) ++ ["w"], nth j [[3; 3; 1; 4]%nat] [])])
            (rev (seq 0 (length [[3; 3; 1; 4]%nat]))) /\
        (NoDup (map var_name []) -> NoDup (map var_name (st_vars st')))
  | Raise _ => False
  end.
Proof.
  destruct (cnn [[3; 3; 1; 4]%nat] [[1; 1; 1; 1]%nat] [None] [[]] [[]] [None] float32 true None
              (Some [1%R]) None true Input "cnn" (mkStore [] [] [])) as [h st'|e] eqn:E.
  - exact (cnn_variables [[3; 3; 1; 4]%nat] [[1; 1; 1; 1]%nat] [None] [[]] [[]] [None] float32
             true None (Some [1%R]) None true Input "cnn" (mkStore [] [] []) h st' E).
  - vm_compute in E. discriminate.
Defined.

Local Open Scope R_scope.

(** The output of a successful [mlp] reads, after the variables of its
    input, the variables of layers [0], [1], ... in order: for each layer [j]
    the weight [scope/layer_j/w], then the bias [scope/layer_j/b] with
    [add_bias]; these are the names of the variables [mlp] creates. *)
Theorem mlp_var_refs dims is_training act_fn dt add_bias wd init_std init_method dropout
    trainable x scope st h st' :
  mlp dims is_training act_fn dt add_bias wd init_std init_method dropout trainable
    x scope st = Ok h st' ->
  let pre j := (st_scope st ++ [scope]) ++ [layer_scope j] in
  var_refs h = var_refs x ++
    flat_map (fun j => [pre j ++ ["w"]] ++ (if add_bias then [pre j ++ ["b"]] else []))
      (seq 0 (length dims - 1)).
Proof.
  unfold mlp. intros H. apply variable_scope_ok in H as (st1 & H & _).
  apply mlp_layers_refs in H. exact H.
Qed.

Lemma mlp_var_refs_witness :
  match mlp [4; 5; 2]%nat true None float32 true None (Some [1; 1]%R) None None
          true Input "mlp" (mkStore [] [] []) with
  | Ok h _ =>
      var_refs h = var_refs Input ++
        flat_map (fun j => [(([] ++ ["mlp"]) ++ [layer_scope j]) ++ ["w"]] ++
                           (if true then [(([] ++ ["mlp"]) ++ [layer_scope j]) ++ ["b"]] else []))
          (seq 0 (length [4; 5; 2]%nat - 1))
  | Raise _ => False
  end.
Proof.
  destruct (mlp [4; 5; 2]%nat true None float32 true None (Some [1; 1]%R) None None
              true Input "mlp" (mkStore [] [] [])) as [h st'|e] eqn:E.
  - exact (mlp_var_refs [4; 5; 2]%nat true None float32 true None (Some [1; 1]%R) None None
             true Input "mlp" (mkStore [] [] []) h st' E).
  - vm_compute in E. discriminate.
Defined.
(** The output of a successful [cnn] reads, after the variables of its
    input, the variables of layers [0], [1], ... in order: for each layer [j]
    the filter [scope/layer_j/w], then the bias [scope/layer_j/b] with
    [add_bias]; these are the names of the variables [cnn] creates. *)
Theorem cnn_var_refs filter_size strides pool_fn pool_size pool_strides act_fn dt add_bias wd
    init_std init_method trainable x scope st h st' :
  cnn filter_size strides pool_fn pool_size pool_strides act_fn dt add_bias wd
    init_std init_method trainable x scope st = Ok h st' ->
  let pre j := (st_scope st ++ [scope]) ++ [layer_scope j] in
  var_refs h = var_refs x ++
    flat_map (fun j => [pre j ++ ["w"]] ++ (if add_bias then [pre j ++ ["b"]] else []))
      (seq 0 (length filter_size)).
Proof.
  unfold cnn. intros H. apply variable_scope_ok in H as (st1 & H & _).
  apply cnn_layers_refs in H. exact H.
Qed.

Lemma cnn_var_refs_witness :
  match cnn [[3; 3; 1; 4]%nat] [[1; 1; 1; 1]%nat] [None] [[]] [[]] [None] float32 true None
          (Some [1%R]) None true Input "cnn" (mkStore [] [] []) with
  | Ok h _ =>
      var_refs h = var_refs Input ++
        flat_map (fun j => [(([] ++ ["cnn"]) ++ [layer_scope j]) ++ ["w"]] ++
                           (if true then [(([] ++ ["cnn"]) ++ [layer_scope j]) ++ ["b"]] else []))
          (seq 0 (length [[3; 3; 1; 4]%nat]))
  | Raise _ => False
  end.
Proof.
  destruct (cnn [[3; 3; 1; 4]%nat] [[1; 1; 1; 1]%nat] [None] [[]] [[]] [None] float32 true None
              (Some [1%R]) None true Input "cnn" (mkStore [] [] [])) as [h st'|e] eqn:E.
  - exact (cnn_var_refs [[3; 3; 1; 4]%nat] [[1; 1; 1; 1]%nat] [None] [[]] [[]] [None] float32
             true None (Some [1%R]) None true Input "cnn" (mkStore [] [] []) h st' E).
  - vm_compute in E. discriminate.
Defined.
End ConstructionProps.

(* ================================================================== *)
(** * Further properties of the normalisation values *)

Section NumericProps.
Local Open Scope R_scope.

(** In training, channel [c] of the [batch_norm] output has mean [beta_c]
    (0 without [beta]) and biased variance [gamma_c^2 * var / (var + eps)],
    where [var] is the batch variance of the channel ([gamma_c = 1] without
    [gamma]). *)
Theorem batch_norm_train_output_stats rn vn x n_out gamma beta eps s c :
  x <> [] -> (c < n_out)%nat -> Forall (fun r => (c < length r)%nat) x -> 0 < eps ->
  let out := col (fst (fst (batch_norm rn vn x n_out true gamma beta eps s))) c in
  let bv := nth c (snd (moments_rows x n_out)) 0 in
  let g := match gamma with Some g => nth c g 0 | None => 1 end in
  mean_list out = match beta with Some b => nth c b 0 | None => 0 end /\
  mean_list (map (fun o => (o - mean_list out) ^ 2) out) = g ^ 2 * bv / (bv + eps).
Proof.
  intros Hx Hc Hlen Heps. cbv zeta.
  rewrite batch_norm_train_col by exact Hlen.
  destruct (moments_rows_nth x n_out c Hc) as [Hm Hv].
  set (bm := nth c (fst (moments_rows x n_out)) 0) in *.
  set (bv := nth c (snd (moments_rows x n_out)) 0) in *.
  set (g := match gamma with Some g => nth c g 0 | None => 1 end).
  set (b0 := match beta with Some b => nth c b 0 | None => 0 end).
  set (k := / sqrt (bv + eps) * g).
  assert (Hmean : mean_list (map (fun r => k * (nth c r 0 - bm) + b0) x) = b0).
  { rewrite mean_list_affine by exact Hx.
    rewrite (map_ext _ (fun r => 1 * nth c r 0 + - bm)) by (intros; ring).
    rewrite mean_list_affine by exact Hx. fold (col x c). rewrite <- Hm. ring. }
  split; [exact Hmean|]. rewrite Hmean.
  rewrite map_map.
  rewrite (map_ext _ (fun r => k ^ 2 * (nth c r 0 - bm) ^ 2 + 0)) by (intros; ring).
  rewrite mean_list_affine by exact Hx.
  assert (Hbv : 0 <= bv).
  { rewrite Hv. apply mean_list_nonneg. rewrite Forall_forall. intros y Hy.
    apply in_map_iff in Hy as (v & <- & _). apply pow2_ge_0. }
  assert (Hx2 : mean_list (map (fun r => (nth c r 0 - bm) ^ 2) x) = bv)
    by (rewrite Hv, <- Hm; unfold col; rewrite map_map; reflexivity).
  rewrite Hx2. unfold k. rewrite Rpow_mult_distr, pow_inv, <- Rsqr_pow2, Rsqr_sqrt by lra.
  field. lra.
Qed.

Lemma batch_norm_train_output_stats_witness :
  let out := col (fst (fst (batch_norm true true [[0]; [2]] 1 true None None 1
                              (mkBnState [0] [0] [0] [0])))) 0 in
  let bv := nth 0 (snd (moments_rows [[0]; [2]] 1)) 0 in
  let g := 1 in
  mean_list out = 0 /\
  mean_list (map (fun o => (o - mean_list out) ^ 2) out) = g ^ 2 * bv / (bv + 1).
Proof.
  apply (batch_norm_train_output_stats true true [[0]; [2]] 1 None None 1
           (mkBnState [0] [0] [0] [0]) 0).
  - discriminate.
  - lia.
  - repeat constructor.
  - lra.
Defined.

(** In training, channel [c] of the [batch_norm_mean_only] output has mean
    [beta_c] (0 without [beta]), whatever [gamma]. *)
Theorem batch_norm_mean_only_train_output_mean rn x n_out gamma beta s c :
  x <> [] -> (c < n_out)%nat -> Forall (fun r => (c < length r)%nat) x ->
  mean_list (col (fst (fst (batch_norm_mean_only rn x n_out true gamma beta s))) c) =
  match beta with Some b => nth c b 0 | None => 0 end.
Proof.
  intros Hx Hc H. unfold batch_norm_mean_only. cbn [fst].
  rewrite apply_gamma_beta_rows_col by (apply bcast_rows_len; exact H).
  rewrite (col_map_after (fun y => y * match gamma with Some g => nth c g 0 | None => 1 end +
                match beta with Some b => nth c b 0 | None => 0 end)).
  rewrite bcast_rows_col by exact H. rewrite map_map.
  set (g0 := match gamma with Some g => nth c g 0 | None => 1 end).
  set (b0 := match beta with Some b => nth c b 0 | None => 0 end).
  set (m := nth c (reduce_mean_rows x n_out) 0).
  rewrite (map_ext _ (fun r => g0 * (1 * nth c r 0 + - m) + b0)) by (intros; ring).
  rewrite <- (map_map (fun r => 1 * nth c r 0 + - m) (fun y => g0 * y + b0)).
  rewrite (mean_list_affine (fun y => y) g0 b0)
    by (intros E; apply map_eq_nil in E; contradiction).
  rewrite map_id, mean_list_affine by exact Hx. fold (col x c).
  unfold m, reduce_mean_rows. rewrite nth_map_seq_len by exact Hc. ring.
Qed.

Lemma batch_norm_mean_only_train_output_mean_witness :
  mean_list (col (fst (fst (batch_norm_mean_only true [[1]; [5]] 1 true (Some [3]) (Some [2])
                              (mkBnmsState [0] [0])))) 0) = nth 0 [2] 0.
Proof.
  apply (batch_norm_mean_only_train_output_mean true [[1]; [5]] 1 (Some [3]) (Some [2])
           (mkBnmsState [0] [0]) 0).
  - discriminate.
  - lia.
  - repeat constructor.
Defined.

(** After [n] training steps on the same batch, the shadow mean and variance
    of channel [c] are [0.9^n * old + (1 - 0.9^n) * batch statistic]; the
    EMA mean variable holds the last shadow value when the moving mean reads
    the new value, and the one of the step before otherwise. *)
Theorem batch_norm_train_steps_shadow rn vn x n_out gamma beta eps n s c :
  (c < length (shadow_mean s))%nat -> (c < length (shadow_var s))%nat ->
  let bm := nth c (fst (moments_rows x n_out)) 0 in
  let bv := nth c (snd (moments_rows x n_out)) 0 in
  let s' := batch_norm_train_steps rn vn x n_out gamma beta eps n s in
  nth c (shadow_mean s') 0 = (9 / 10) ^ n * nth c (shadow_mean s) 0 + (1 - (9 / 10) ^ n) * bm /\
  nth c (shadow_var s') 0 = (9 / 10) ^ n * nth c (shadow_var s) 0 + (1 - (9 / 10) ^ n) * bv /\
  ((0 < n)%nat -> ema_mean s' = if rn then shadow_mean s' else
     shadow_mean (batch_norm_train_steps rn vn x n_out gamma beta eps (n - 1) s)).
Proof.
  cbv zeta. revert s. induction n as [|n IH]; intros s Hm Hv.
  - simpl. split; [ring|]. split; [ring|]. intros H; lia.
  - cbn [batch_norm_train_steps].
    set (s1 := snd (batch_norm rn vn x n_out true gamma beta eps s)).
    assert (E1 : shadow_mean s1 = ema_update (shadow_mean s) (fst (moments_rows x n_out)) /\
                 shadow_var s1 = ema_update (shadow_var s) (snd (moments_rows x n_out)) /\
                 ema_mean s1 = if rn then shadow_mean s1 else shadow_mean s).
    { unfold s1, batch_norm. destruct (moments_rows x n_out) as [bm bv]. simpl.
      repeat split. }
    destruct E1 as (E1m & E1v & E1e).
    assert (L1 : (c < length (shadow_mean s1))%nat /\ (c < length (shadow_var s1))%nat).
    { rewrite E1m, E1v, !ema_update_length. auto. }
    destruct L1 as [L1m L1v].
    destruct (IH s1 L1m L1v) as (IHm & IHv & IHe).
    rewrite IHm, IHv, E1m, E1v, !ema_update_spec by assumption.
    split; [cbn [pow]; field|]. split; [cbn [pow]; field|].
    intros _. destruct n as [|n].
    + simpl. exact E1e.
    + rewrite (IHe ltac:(lia)). replace (S (S n) - 1)%nat with (S n) by lia.
      replace (S n - 1)%nat with n by lia. reflexivity.
Qed.

Lemma batch_norm_train_steps_shadow_witness :
  let bm := nth 0 (fst (moments_rows [[0]; [2]] 1)) 0 in
  let bv := nth 0 (snd (moments_rows [[0]; [2]] 1)) 0 in
  let s' := batch_norm_train_steps false false [[0]; [2]] 1 None None 1 3
              (mkBnState [0] [0] [4] [4]) in
  nth 0 (shadow_mean s') 0 = (9 / 10) ^ 3 * nth 0 [4] 0 + (1 - (9 / 10) ^ 3) * bm /\
  nth 0 (shadow_var s') 0 = (9 / 10) ^ 3 * nth 0 [4] 0 + (1 - (9 / 10) ^ 3) * bv /\
  ((0 < 3)%nat -> ema_mean s' = if false then shadow_mean s' else
     shadow_mean (batch_norm_train_steps false false [[0]; [2]] 1 None None 1 (3 - 1)
                    (mkBnState [0] [0] [4] [4]))).
Proof.
  apply (batch_norm_train_steps_shadow false false [[0]; [2]] 1 None None 1 3
           (mkBnState [0] [0] [4] [4]) 0); simpl; lia.
Defined.

(** Adding the same constant to every element of an example leaves the
    [layer_norm] output unchanged. *)
Theorem layer_norm_shift_invariant (x : list vec) gamma beta eps k :
  layer_norm (map (map (fun v => v + k)) x) gamma beta eps = layer_norm x gamma beta eps.
Proof.
  unfold layer_norm. rewrite map_map. apply map_ext. intros ex.
  destruct ex as [|v0 ex0] eqn:Eex; [reflexivity|].
  rewrite <- Eex. assert (Hne : ex <> []) by (rewrite Eex; discriminate).
  unfold layer_norm_example. rewrite length_map.
  rewrite mean_list_shift by exact Hne.
  rewrite map_map.
  rewrite (map_ext (fun v => (v + k - (mean_list ex + k)) ^ 2) (fun v => (v - mean_list ex) ^ 2))
    by (intros; ring).
  apply map_ext_in. intros p Hp. apply in_seq in Hp.
  rewrite nth_indep with (d' := 0 + k) by (rewrite length_map; lia).
  rewrite (map_nth (fun v => v + k)).
  replace (nth p ex 0 + k - (mean_list ex + k)) with (nth p ex 0 - mean_list ex) by ring.
  reflexivity.
Qed.

(** Without [gamma] and [beta], a [layer_norm] example output has the length
    of its input, mean 0 and biased variance [var / (var + eps)]. *)
Theorem layer_norm_example_stats eps (ex : vec) :
  ex <> [] -> 0 < eps ->
  let out := layer_norm_example None None eps ex in
  let var := mean_list (map (fun v => (v - mean_list ex) ^ 2) ex) in
  length out = length ex /\
  mean_list out = 0 /\
  mean_list (map (fun o => (o - mean_list out) ^ 2) out) = var / (var + eps).
Proof.
  intros Hne Heps. cbv zeta. unfold layer_norm_example.
  set (m := mean_list ex). set (var := mean_list (map (fun v => (v - m) ^ 2) ex)).
  rewrite (map_seq_nth_map (fun v => (v - m) / sqrt (eps + var))).
  assert (Hvar : 0 <= var).
  { apply mean_list_nonneg. rewrite Forall_forall. intros y Hy.
    apply in_map_iff in Hy as (v & <- & _). apply pow2_ge_0. }
  assert (Hmean : mean_list (map (fun v => (v - m) / sqrt (eps + var)) ex) = 0).
  { rewrite (map_ext _ (fun v => / sqrt (eps + var) * v + - m / sqrt (eps + var)))
      by (intros; unfold Rdiv; ring).
    rewrite (mean_list_affine (fun v => v)) by exact Hne. rewrite map_id. fold m.
    unfold Rdiv. ring. }
  split; [apply length_map|]. split; [exact Hmean|]. rewrite Hmean, map_map.
  rewrite (map_ext _ (fun v => / (eps + var) * (v - m) ^ 2 + 0)).
  - rewrite (mean_list_affine (fun v => (v - m) ^ 2)) by exact Hne. fold var. field. lra.
  - intros v. unfold Rdiv. rewrite Rminus_0_r, Rpow_mult_distr, pow_inv.
    rewrite <- Rsqr_pow2 with (x := sqrt (eps + var)), Rsqr_sqrt by lra. ring.
Qed.

Lemma layer_norm_example_stats_witness :
  let out := layer_norm_example None None 1 [1; 3] in
  let var := mean_list (map (fun v => (v - mean_list [1; 3]) ^ 2) [1; 3]) in
  length out = length [1; 3] /\
  mean_list out = 0 /\
  mean_list (map (fun o => (o - mean_list out) ^ 2) out) = var / (var + 1).
Proof.
  apply (layer_norm_example_stats 1 [1; 3]).
  - discriminate.
  - lra.
Defined.

(** On a constant input [k], the local mean of [div_norm_1d] at [i] is [k]
    times the fraction of the sum window inside the tensor (zero padding);
    where the whole window is inside and [eps > 0], the mean is [k] and the
    output is [beta_i] (0 without [beta]). *)
Theorem div_norm_1d_constant_input B D k ws wp gamma beta eps b i :
  let x := mkT2 B D (fun _ _ => k) in
  let pl := Z.of_nat ((ws - 1) / 2) in
  let out := div_norm_1d x ws wp gamma beta eps in
  t2_at (snd out) b i =
    k * INR (length (filter (fun a => in_range (i + Z.of_nat a - pl) D) (seq 0 ws))) / INR ws /\
  ((0 < ws)%nat -> (0 <= i - pl)%Z -> (i - pl + Z.of_nat ws <= Z.of_nat D)%Z ->
   0 < eps_or_default eps ->
     t2_at (snd out) b i = k /\
     t2_at (fst out) b i = match beta with Some bt => nth (Z.to_nat i) bt 0 | None => 0 end).
Proof.
  cbv zeta.
  destruct (div_norm_1d_pointwise (mkT2 B D (fun _ _ => k)) ws wp gamma beta eps) as [Ho Hm].
  cbv zeta in Ho, Hm.
  assert (Hmean : forall i, t2_at (snd (div_norm_1d (mkT2 B D (fun _ _ => k)) ws wp gamma beta eps)) b i =
    k * INR (length (filter (fun a => in_range (i + Z.of_nat a - Z.of_nat ((ws - 1) / 2)) D)
                              (seq 0 ws))) / INR ws).
  { intros i'. rewrite Hm. unfold div_norm_1d_spec, spec_box1, spec_pad1. cbn [snd t2_at t2_d].
    rewrite (sumN_indicator (fun a => in_range (i' + Z.of_nat a - Z.of_nat ((ws - 1) / 2)) D)).
    unfold Rdiv. ring. }
  split; [apply Hmean|].
  intros Hws Hlo Hhi _.
  assert (Hk : t2_at (snd (div_norm_1d (mkT2 B D (fun _ _ => k)) ws wp gamma beta eps)) b i = k).
  { rewrite Hmean, filter_all_true, length_seq.
    - field. apply not_0_INR. lia.
    - intros a Ha. apply in_seq in Ha. unfold in_range. apply andb_true_intro. split.
      + apply Z.leb_le. lia.
      + apply Z.ltb_lt. lia. }
  split; [exact Hk|].
  rewrite Ho. unfold div_norm_1d_spec. cbn [fst t2_at t2_d].
  rewrite Hm in Hk. cbn [snd] in Hk. unfold div_norm_1d_spec in Hk. cbn [snd t2_at t2_d] in Hk.
  rewrite Hk. unfold spec_scale_shift. rewrite Rminus_diag. unfold Rdiv. rewrite Rmult_0_l.
  destruct gamma, beta; ring.
Qed.

(** With [1 x 1] windows, [div_norm_2d] is a normalisation across channels:
    the local mean at a pixel is the channel mean there, and the output is
    [(x_c - mu) / sqrt (var + eps)], scaled by [gamma_c] and shifted by
    [beta_c] when given ([eps] defaults to 1). *)
Theorem div_norm_2d_unit_windows x gamma beta eps b i j c :
  in_range i (t4_h x) && in_range j (t4_w x) = true ->
  let mu := sumN (t4_c x) (fun c => t4_at x b i j (Z.of_nat c)) / INR (t4_c x) in
  let var := sumN (t4_c x) (fun c => (t4_at x b i j (Z.of_nat c) - mu) ^ 2) / INR (t4_c x) in
  let out := div_norm_2d x (1%nat, 1%nat) (1%nat, 1%nat) gamma beta eps in
  let o := (t4_at x b i j c - mu) / sqrt (var + eps_or_default eps) in
  let o := match gamma with Some g => o * nth (Z.to_nat c) g 0 | None => o end in
  t4_at (snd out) b i j 0 = mu /\
  t4_at (fst out) b i j c = match beta with Some bt => o + nth (Z.to_nat c) bt 0 | None => o end.
Proof.
  intros Hin. cbv zeta.
  destruct (div_norm_2d_pointwise x 1 1 1 1 gamma beta eps) as [Ho Hm]. cbv zeta in Ho, Hm.
  split.
  - rewrite Hm. unfold div_norm_2d_spec. cbn [snd].
    rewrite spec_box2_unit1 by exact Hin. reflexivity.
  - rewrite Ho. unfold div_norm_2d_spec. cbn [fst].
    repeat (rewrite spec_box2_unit1 by exact Hin; cbv beta).
    unfold spec_chan_mean, spec_scale_shift. reflexivity.
Qed.

Lemma div_norm_2d_unit_windows_witness :
  let x := mkT4 1 1 1 2 (fun _ _ _ c => IZR c) in
  let mu := sumN (t4_c x) (fun c => t4_at x 0 0 0 (Z.of_nat c)) / INR (t4_c x) in
  let var := sumN (t4_c x) (fun c => (t4_at x 0 0 0 (Z.of_nat c) - mu) ^ 2) / INR (t4_c x) in
  let out := div_norm_2d x (1%nat, 1%nat) (1%nat, 1%nat) None None None in
  let o := (t4_at x 0 0 0 1 - mu) / sqrt (var + eps_or_default None) in
  t4_at (snd out) 0 0 0 0 = mu /\ t4_at (fst out) 0 0 0 1 = o.
Proof.
  apply (div_norm_2d_unit_windows (mkT4 1 1 1 2 (fun _ _ _ c => IZR c)) None None None 0 0 0 1).
  reflexivity.
Defined.

End NumericProps.

